(** * To-Do list manager with memento history (src/main.cpp)

    A shallow embedding of the classes [TaskMemento], [Task], [TaskHistory]
    and [ToDoListManager], followed by the properties of the undo / redo
    mechanism.

    Conventions of the embedding:
    - [std::string] is [string]; [operator==] on strings is [String.eqb].
    - [std::stack<TaskMemento>] is a [list] whose head is the top.
    - [std::vector<Task>] is a [list] read and written by position.
    - an [int] is a [Z] in the range of [int_range]; the conversion to
      [size_t] that [index < tasks.size()] and [tasks[index]] perform is
      written out ([size_t_of_int]).
    - a method that would run into undefined behaviour ([top] of an empty
      stack, [operator[]] past the end) returns [None]; a normal return is
      [Some].
    - the line [undo] or [redo] prints on [cout] is returned with the new
      state; [display], [viewTasks] and the menu loop of [main] only print
      and are not part of the embedding of the manager's state.
    - what goes to [cout] is a list of strings, one for each [endl], holding
      the text sent since the [endl] before; an [int] is printed in decimal
      ([pretty]).
    - signed overflow of an [int] is undefined ([None]); the conversion of a
      [size_t] to [int] wraps ([int_of_size_t]). *)

From Stdlib Require Import ZArith Lia.
From stdpp Require Import base option list strings pretty.

Local Open Scope string_scope.
Local Open Scope list_scope.
Local Open Scope Z_scope.

(** ** TaskMemento *)

Module TaskMemento.

Record t : Type := Build
  { description : string;
    isCompleted : bool;
    dueDate : string }.

Definition getDescription (m : t) : string := description m.
Definition getCompletedStatus (m : t) : bool := isCompleted m.
Definition getDueDate (m : t) : string := dueDate m.

End TaskMemento.

(** ** Conversions and arithmetic of [int] used when printing *)

(** Conversion of a [size_t] to the 32-bit [int]. *)
Definition int_of_size_t (i : Z) : Z := (i + 2 ^ 31) mod 2 ^ 32 - 2 ^ 31.

(** [a + b] on [int]: defined when the sum is an [int]. *)
Definition int_add (a b : Z) : option Z :=
  if (- 2 ^ 31 <=? a + b) && (a + b <? 2 ^ 31) then Some (a + b) else None.

(** [a - b] on [int]. *)
Definition int_sub (a b : Z) : option Z :=
  if (- 2 ^ 31 <=? a - b) && (a - b <? 2 ^ 31) then Some (a - b) else None.

(** [std::string::empty] *)
Definition string_empty (str : string) : bool :=
  match str with EmptyString => true | String _ _ => false end.

(** ** Task and its builder *)

Module Task.

Record t : Type := Build
  { description : string;
    completed : bool;
    dueDate : string;
    tags : list string }.

Module Builder.

Record t : Type := Build
  { description : string;
    completed : bool;
    dueDate : string;
    tags : list string }.

(** [Builder(desc)]: the members not initialised are default-constructed. *)
Definition new (desc : string) : t :=
  {| description := desc; completed := false; dueDate := ""; tags := [] |}.

Definition setDueDate (date : string) (b : t) : t :=
  {| description := description b; completed := completed b;
     dueDate := date; tags := tags b |}.

Definition setTags (taskTags : list string) (b : t) : t :=
  {| description := description b; completed := completed b;
     dueDate := dueDate b; tags := taskTags |}.

End Builder.

Definition build (b : Builder.t) : t :=
  {| description := Builder.description b;
     completed := Builder.completed b;
     dueDate := Builder.dueDate b;
     tags := Builder.tags b |}.

Definition set_completed (c : bool) (tk : t) : t :=
  {| description := description tk; completed := c;
     dueDate := dueDate tk; tags := tags tk |}.

Definition markCompleted (tk : t) : t :=
  if negb (completed tk) then set_completed true tk else tk.

Definition markPending (tk : t) : t :=
  if completed tk then set_completed false tk else tk.

Definition isCompleted (tk : t) : bool := completed tk.

Definition getDescription (tk : t) : string := description tk.

Definition save (tk : t) : TaskMemento.t :=
  TaskMemento.Build (description tk) (completed tk) (dueDate tk).

Definition restore (memento : TaskMemento.t) (tk : t) : t :=
  {| description := TaskMemento.getDescription memento;
     completed := TaskMemento.getCompletedStatus memento;
     dueDate := TaskMemento.getDueDate memento;
     tags := tags tk |}.

(** [display(index)]: the line sent to [cout]. *)
Definition display (index : Z) (tk : t) : option string :=
  number ← int_add index 1;
  Some (pretty number +:+ ". " +:+ description tk +:+ " - " +:+
        (if completed tk then "Completed" else "Pending") +:+
        (if negb (string_empty (dueDate tk)) then ", Due: " +:+ dueDate tk else "")).

End Task.

(** ** TaskHistory: a pair of stacks *)

Module TaskHistory.

Record t : Type := Build
  { history : list TaskMemento.t;
    redoStack : list TaskMemento.t }.

Definition empty : t := {| history := []; redoStack := [] |}.

Definition addMemento (memento : TaskMemento.t) (h : t) : t :=
  {| history := memento :: history h; redoStack := [] |}.

(** [history.top()] on an empty stack is undefined: [None]. *)
Definition getMemento (h : t) : option (TaskMemento.t * t) :=
  match history h with
  | [] => None
  | memento :: rest =>
      Some (memento, {| history := rest; redoStack := memento :: redoStack h |})
  end.

Definition isEmpty (h : t) : bool :=
  match history h with [] => true | _ :: _ => false end.

Definition isRedoStackEmpty (h : t) : bool :=
  match redoStack h with [] => true | _ :: _ => false end.

Definition redo (h : t) : option (TaskMemento.t * t) :=
  match redoStack h with
  | [] => None
  | memento :: rest =>
      Some (memento, {| history := memento :: history h; redoStack := rest |})
  end.

(** Number of snapshots one history object holds. *)
Definition count (h : t) : nat := (length (history h) + length (redoStack h))%nat.

End TaskHistory.

(** ** Machine integers used as indices *)

Definition int_range (i : Z) : Prop := - 2 ^ 31 <= i < 2 ^ 31.

(** Conversion of an [int] to the 64-bit unsigned [size_t]. *)
Definition size_t_of_int (i : Z) : Z := i mod 2 ^ 64.

(** ** ToDoListManager *)

Module ToDoListManager.

Record t : Type := Build
  { tasks : list Task.t;
    history : TaskHistory.t;
    redoStack : TaskHistory.t }.

(** A default-constructed manager. *)
Definition init : t :=
  {| tasks := []; history := TaskHistory.empty; redoStack := TaskHistory.empty |}.

Definition set_tasks (ts : list Task.t) (s : t) : t :=
  {| tasks := ts; history := history s; redoStack := redoStack s |}.

Definition set_history (h : TaskHistory.t) (s : t) : t :=
  {| tasks := tasks s; history := h; redoStack := redoStack s |}.

(** [index >= 0 && index < tasks.size()]: the second comparison is made
    in [size_t]. *)
Definition index_ok (index : Z) (s : t) : bool :=
  (0 <=? index) && (size_t_of_int index <? Z.of_nat (length (tasks s))).

(** [tasks[index]] *)
Definition at_index (index : Z) (s : t) : option Task.t :=
  tasks s !! Z.to_nat (size_t_of_int index).

Definition addTask (task : Task.t) (s : t) : t :=
  set_history (TaskHistory.addMemento (Task.save task) (history s))
    (set_tasks (tasks s ++ [task]) s).

Definition markTaskCompleted (index : Z) (s : t) : option t :=
  if index_ok index s then
    tk ← at_index index s;
    if negb (Task.isCompleted tk) then
      let s1 := set_history (TaskHistory.addMemento (Task.save tk) (history s)) s in
      Some (set_tasks (<[Z.to_nat (size_t_of_int index) := Task.markCompleted tk]> (tasks s1)) s1)
    else Some s
  else Some s.

Definition markTaskPending (index : Z) (s : t) : option t :=
  if index_ok index s then
    tk ← at_index index s;
    if Task.isCompleted tk then
      let s1 := set_history (TaskHistory.addMemento (Task.save tk) (history s)) s in
      Some (set_tasks (<[Z.to_nat (size_t_of_int index) := Task.markPending tk]> (tasks s1)) s1)
    else Some s
  else Some s.

(** [tasks.erase(tasks.begin() + index)]: the iterator arithmetic uses the
    signed [index] itself. *)
Definition deleteTask (index : Z) (s : t) : option t :=
  if index_ok index s then
    tk ← at_index index s;
    let s1 := set_history (TaskHistory.addMemento (Task.save tk) (history s)) s in
    Some (set_tasks (delete (Z.to_nat index) (tasks s1)) s1)
  else Some s.

(** The loop shared by [undo] and [redo]:
    [for (auto& task : tasks) if (task.getDescription() == memento.getDescription()) { task.restore(memento); break; }] *)
Fixpoint restore_first (memento : TaskMemento.t) (ts : list Task.t) : list Task.t :=
  match ts with
  | [] => []
  | task :: rest =>
      if String.eqb (Task.getDescription task) (TaskMemento.getDescription memento)
      then Task.restore memento task :: rest
      else task :: restore_first memento rest
  end.

Definition undo (s : t) : option (t * string) :=
  if negb (TaskHistory.isEmpty (history s)) then
    '(memento, h) ← TaskHistory.getMemento (history s);
    Some ({| tasks := restore_first memento (tasks s);
             history := h;
             redoStack := TaskHistory.addMemento memento (redoStack s) |},
          "Undo successful.")
  else Some (s, "Nothing to undo.").

Definition redo (s : t) : option (t * string) :=
  if negb (TaskHistory.isRedoStackEmpty (redoStack s)) then
    '(memento, r) ← TaskHistory.redo (redoStack s);
    Some ({| tasks := restore_first memento (tasks s);
             history := TaskHistory.addMemento memento (history s);
             redoStack := r |},
          "Redo successful.")
  else Some (s, "Nothing to redo.").

(** The calls the menu loop of [main] can make. *)
Inductive command : Type :=
| AddTask (task : Task.t)
| MarkTaskCompleted (index : Z)
| MarkTaskPending (index : Z)
| DeleteTask (index : Z)
| Undo
| Redo.

(** Indices are [int] values. *)
Definition command_wf (c : command) : Prop :=
  match c with
  | MarkTaskCompleted index | MarkTaskPending index | DeleteTask index => int_range index
  | AddTask _ | Undo | Redo => True
  end.

Definition exec (c : command) (s : t) : option t :=
  match c with
  | AddTask task => Some (addTask task s)
  | MarkTaskCompleted index => markTaskCompleted index s
  | MarkTaskPending index => markTaskPending index s
  | DeleteTask index => deleteTask index s
  | Undo => fst <$> undo s
  | Redo => fst <$> redo s
  end.

Fixpoint run (cs : list command) (s : t) : option t :=
  match cs with
  | [] => Some s
  | c :: cs' => s' ← exec c s; run cs' s'
  end.

(** States of a manager that started empty. *)
Inductive reachable : t → Prop :=
| reachable_init : reachable init
| reachable_step s c s' :
    reachable s → command_wf c → exec c s = Some s' → reachable s'.

(** [undo()] / [redo()] called [n] times in a row. *)
Fixpoint undo_n (n : nat) (s : t) : option t :=
  match n with
  | O => Some s
  | S n' => s' ← fst <$> undo s; undo_n n' s'
  end.

Fixpoint redo_n (n : nat) (s : t) : option t :=
  match n with
  | O => Some s
  | S n' => s' ← fst <$> redo s; redo_n n' s'
  end.

(** Snapshots held by the manager, over both history objects. *)
Definition total_snapshots (s : t) : nat :=
  (TaskHistory.count (history s) + TaskHistory.count (redoStack s))%nat.

(** The condition under which [viewTasks] displays a task. *)
Definition shown (filter : string) (tk : Task.t) : bool :=
  String.eqb filter "Show all" ||
  (String.eqb filter "Show completed" && Task.isCompleted tk) ||
  (String.eqb filter "Show pending" && negb (Task.isCompleted tk)).

(** The loop of [viewTasks], from position [i] on; [rest] holds the tasks
    at positions [i], [i + 1], ... ([i] stays below [tasks.size()], so
    [++i] does not wrap). *)
Fixpoint view_loop (filter : string) (i : Z) (rest : list Task.t) : option (list string) :=
  match rest with
  | [] => Some []
  | tk :: rest' =>
      if shown filter tk then
        line ← Task.display (int_of_size_t i) tk;
        lines ← view_loop filter (i + 1) rest';
        Some (line :: lines)
      else view_loop filter (i + 1) rest'
  end.

Definition viewTasks (filter : string) (s : t) : option (list string) :=
  lines ← view_loop filter 0 (tasks s);
  Some ("Tasks:" :: lines).

End ToDoListManager.

(** ** One iteration of the loop of [main] *)

Module Main.

Import ToDoListManager.

(** The menu printed at the start of each iteration. *)
Definition menu : list string :=
  [ "What would you like to do?";
    "1. Add a new task";
    "2. Mark a task as completed";
    "3. Mark a task as pending";
    "4. Delete a task";
    "5. View all tasks";
    "6. View completed tasks";
    "7. View pending tasks";
    "8. Undo";
    "9. Redo";
    "10. Exit" ].

(** What an iteration extracts from [cin] after the choice, each extraction
    taken to succeed: [description] by [getline], the others by [>>]. A
    case uses only the values it reads. *)
Record reads : Type := Reads
  { description : string;
    addDueDate : string;
    due_date : string;
    index : Z }.

(** An iteration either goes on with the next one or returns from [main]. *)
Inductive outcome : Type :=
| Continue (s : t) (out : list string)
| Return (code : Z) (out : list string).

Definition wants_due_date (r : reads) : bool :=
  String.eqb (addDueDate r) "y" || String.eqb (addDueDate r) "Y".

(** The body of [while (true)] for the choice read. *)
Definition iteration (choice : Z) (r : reads) (s : t) : option outcome :=
  match choice with
  | 1 =>
      let due := if wants_due_date r then due_date r else "" in
      let prompts :=
        "Enter task description: " +:+ "Do you want to add a due date? (y/n): " +:+
        (if wants_due_date r then "Enter due date (YYYY-MM-DD): " else "") in
      let task := Task.build (Task.Builder.setDueDate due (Task.Builder.new (description r))) in
      Some (Continue (addTask task s) (menu ++ [prompts +:+ "Task added successfully!"]))
  | 2 =>
      position ← int_sub (index r) 1;
      s' ← markTaskCompleted position s;
      Some (Continue s' (menu ++ ["Enter task index: " +:+ "Task marked as completed!"]))
  | 3 =>
      position ← int_sub (index r) 1;
      s' ← markTaskPending position s;
      Some (Continue s' (menu ++ ["Enter task index: " +:+ "Task marked as pending!"]))
  | 4 =>
      position ← int_sub (index r) 1;
      s' ← deleteTask position s;
      Some (Continue s' (menu ++ ["Enter task index: " +:+ "Task deleted successfully!"]))
  | 5 => lines ← viewTasks "Show all" s; Some (Continue s (menu ++ lines))
  | 6 => lines ← viewTasks "Show completed" s; Some (Continue s (menu ++ lines))
  | 7 => lines ← viewTasks "Show pending" s; Some (Continue s (menu ++ lines))
  | 8 => '(s', line) ← undo s; Some (Continue s' (menu ++ [line]))
  | 9 => '(s', line) ← redo s; Some (Continue s' (menu ++ [line]))
  | 10 => Some (Return 0 (menu ++ ["Exiting..."]))
  | _ => Some (Continue s (menu ++ ["Invalid choice. Please try again."]))
  end.

End Main.

(** * Properties *)

Import ToDoListManager.

(** Tasks used in the examples, built the way [main] builds them. *)
Definition buy_milk : Task.t :=
  Task.build (Task.Builder.setDueDate "" (Task.Builder.new "Buy milk")).

Definition call_alice : Task.t :=
  Task.build (Task.Builder.setDueDate "2024-01-01" (Task.Builder.new "Call Alice")).

(** The state a command sequence leads to from the empty manager. *)
Definition after (cs : list command) : t := default init (run cs init).

(** One task, just added. *)
Definition s_added : t := after [AddTask buy_milk].

(** One task, added and then completed. *)
Definition s_done : t := after [AddTask buy_milk; MarkTaskCompleted 0].

(** Two tasks, the first one completed. *)
Definition s_two : t :=
  after [AddTask buy_milk; AddTask call_alice; MarkTaskCompleted 0].

(** An edit command is one of the four that may record a snapshot. *)
Definition is_edit (c : command) : Prop :=
  match c with
  | AddTask _ | MarkTaskCompleted _ | MarkTaskPending _ | DeleteTask _ => True
  | Undo | Redo => False
  end.

(** [s'] has one more snapshot on the undo stack than [s]. *)
Definition recorded (s s' : t) : Prop :=
  ∃ m, TaskHistory.history (history s') = m :: TaskHistory.history (history s).

(** Snapshots on the undo side and on the redo side of the manager. *)
Definition undo_side (s : t) : nat := length (TaskHistory.history (history s)).

Definition redo_side (s : t) : nat :=
  (length (TaskHistory.redoStack (history s)) + TaskHistory.count (redoStack s))%nat.

(** A call of one of the builder's setters, and a chain of such calls on
    [Builder(desc)] closed by [build()]. *)
Inductive setter : Type :=
| SetDueDate (date : string)
| SetTags (taskTags : list string).

Definition apply_setter (b : Task.Builder.t) (st : setter) : Task.Builder.t :=
  match st with
  | SetDueDate date => Task.Builder.setDueDate date b
  | SetTags taskTags => Task.Builder.setTags taskTags b
  end.

Definition build_chain (desc : string) (chain : list setter) : Task.t :=
  Task.build (foldl apply_setter (Task.Builder.new desc) chain).

Definition due_date_of (st : setter) : option string :=
  match st with SetDueDate date => Some date | SetTags _ => None end.

Definition tags_of (st : setter) : option (list string) :=
  match st with SetTags taskTags => Some taskTags | SetDueDate _ => None end.

(** The commands that add or remove a task. *)
Definition resizes (c : command) : Prop :=
  match c with
  | AddTask _ | DeleteTask _ => True
  | MarkTaskCompleted _ | MarkTaskPending _ | Undo | Redo => False
  end.

(** The text [display] prints for the task at position [i] (from 0). *)
Definition line_of (i : nat) (tk : Task.t) : string :=
  pretty (Z.of_nat i + 1) +:+ ". " +:+ Task.description tk +:+ " - " +:+
  (if Task.completed tk then "Completed" else "Pending") +:+
  (if negb (string_empty (Task.dueDate tk)) then ", Due: " +:+ Task.dueDate tk else "").

(** The lines for the tasks of [ts] that [filter] shows, [ts] starting at
    position [i]. *)
Fixpoint lines_from (filter : string) (i : nat) (ts : list Task.t) : list string :=
  match ts with
  | [] => []
  | tk :: rest =>
      if shown filter tk then line_of i tk :: lines_from filter (S i) rest
      else lines_from filter (S i) rest
  end.

(** ** Index arithmetic *)

Section Index.

Variable index : Z.
Hypothesis Hint_range : int_range index.

Lemma size_t_of_int_nonneg : 0 <= index → size_t_of_int index = index.
Proof.
  unfold size_t_of_int, int_range in *. intros Hpos.
  apply Z.mod_small. lia.
Qed.

Lemma index_ok_true (s : t) :
  index_ok index s = true ↔ 0 <= index < Z.of_nat (length (tasks s)).
Proof.
  unfold index_ok. rewrite andb_true_iff, Z.leb_le, Z.ltb_lt.
  split; intros [Hpos Hlt]; split; try done;
    by rewrite size_t_of_int_nonneg in *.
Qed.

Lemma index_ok_false (s : t) :
  index_ok index s = false ↔ ¬ (0 <= index < Z.of_nat (length (tasks s))).
Proof. rewrite <- index_ok_true. by destruct (index_ok index s). Qed.

Lemma at_index_nonneg (s : t) :
  0 <= index → at_index index s = tasks s !! Z.to_nat index.
Proof. intros Hpos. unfold at_index. by rewrite size_t_of_int_nonneg. Qed.

Lemma at_index_is_Some (s : t) :
  index_ok index s = true → is_Some (at_index index s).
Proof.
  intros Hok. apply index_ok_true in Hok as [Hpos Hlt].
  rewrite at_index_nonneg by done. apply lookup_lt_is_Some. lia.
Qed.

End Index.

(** ** The loop that restores a task *)

Lemma restore_first_descriptions (m : TaskMemento.t) (ts : list Task.t) :
  Task.description <$> restore_first m ts = Task.description <$> ts.
Proof.
  induction ts as [|tk ts IH]; [done|]. cbn [restore_first].
  destruct (String.eqb _ _) eqn:Heq; rewrite !fmap_cons.
  - apply String.eqb_eq in Heq. f_equal. symmetry. exact Heq.
  - by rewrite IH.
Qed.

Lemma restore_first_length (m : TaskMemento.t) (ts : list Task.t) :
  length (restore_first m ts) = length ts.
Proof.
  rewrite <- (length_fmap Task.description (restore_first m ts)).
  by rewrite restore_first_descriptions, length_fmap.
Qed.

Lemma restore_first_no_match (m : TaskMemento.t) (ts : list Task.t) :
  Forall (λ tk, Task.getDescription tk ≠ TaskMemento.getDescription m) ts →
  restore_first m ts = ts.
Proof.
  induction 1 as [|tk ts Hne _ IH]; [done|]. simpl.
  apply String.eqb_neq in Hne. by rewrite Hne, IH.
Qed.

Lemma restore_first_match (m : TaskMemento.t) (before : list Task.t)
    (tk : Task.t) (after : list Task.t) :
  Forall (λ tk', Task.getDescription tk' ≠ TaskMemento.getDescription m) before →
  Task.getDescription tk = TaskMemento.getDescription m →
  restore_first m (before ++ tk :: after) = before ++ Task.restore m tk :: after.
Proof.
  intros Hbefore Heq.
  induction Hbefore as [|tk' ts Hne _ IH]; simpl.
  - apply String.eqb_eq in Heq. by rewrite Heq.
  - apply String.eqb_neq in Hne. by rewrite Hne, IH.
Qed.

(** Either some task is the first with the memento's description, or none has it. *)
Lemma first_match_split (m : TaskMemento.t) (ts : list Task.t) :
  (∃ before tk after,
      ts = before ++ tk :: after ∧
      Forall (λ tk', Task.getDescription tk' ≠ TaskMemento.getDescription m) before ∧
      Task.getDescription tk = TaskMemento.getDescription m) ∨
  Forall (λ tk, Task.getDescription tk ≠ TaskMemento.getDescription m) ts.
Proof.
  induction ts as [|tk ts IH]; [by right|].
  destruct (String.eqb (Task.getDescription tk) (TaskMemento.getDescription m)) eqn:Heq.
  - apply String.eqb_eq in Heq. left. by exists [], tk, ts.
  - apply String.eqb_neq in Heq.
    destruct IH as [(before & tk' & after & -> & Hb & Hd)|Hall].
    + left. exists (tk :: before), tk', after. split_and!; [done| |done].
      by constructor.
    + right. by constructor.
Qed.

(** ** Undo and redo as functions of the stacks *)

Lemma undo_empty (s : t) :
  TaskHistory.history (history s) = [] → undo s = Some (s, "Nothing to undo.").
Proof. intros H. unfold undo, TaskHistory.isEmpty. by rewrite H. Qed.

Lemma undo_nonempty (s : t) (m : TaskMemento.t) (rest : list TaskMemento.t) :
  TaskHistory.history (history s) = m :: rest →
  undo s =
    Some ({| tasks := restore_first m (tasks s);
             history := {| TaskHistory.history := rest;
                           TaskHistory.redoStack := m :: TaskHistory.redoStack (history s) |};
             redoStack := {| TaskHistory.history := m :: TaskHistory.history (redoStack s);
                             TaskHistory.redoStack := [] |} |},
          "Undo successful.").
Proof.
  intros H. unfold undo, TaskHistory.isEmpty, TaskHistory.getMemento.
  by rewrite H.
Qed.

Lemma redo_empty (s : t) :
  TaskHistory.redoStack (redoStack s) = [] → redo s = Some (s, "Nothing to redo.").
Proof. intros H. unfold redo, TaskHistory.isRedoStackEmpty. by rewrite H. Qed.

Lemma redo_nonempty (s : t) (m : TaskMemento.t) (rest : list TaskMemento.t) :
  TaskHistory.redoStack (redoStack s) = m :: rest →
  redo s =
    Some ({| tasks := restore_first m (tasks s);
             history := {| TaskHistory.history := m :: TaskHistory.history (history s);
                           TaskHistory.redoStack := [] |};
             redoStack := {| TaskHistory.history := m :: TaskHistory.history (redoStack s);
                             TaskHistory.redoStack := rest |} |},
          "Redo successful.").
Proof.
  intros H. unfold redo, TaskHistory.isRedoStackEmpty, TaskHistory.redo.
  by rewrite H.
Qed.

(** Every call returns normally: the guards keep [top] and [operator[]] in
    their domain. *)
Lemma undo_returns (s : t) : is_Some (undo s).
Proof.
  destruct (TaskHistory.history (history s)) as [|m rest] eqn:H.
  - rewrite undo_empty by done. by eexists.
  - erewrite undo_nonempty by done. by eexists.
Qed.

Lemma redo_returns (s : t) : is_Some (redo s).
Proof.
  destruct (TaskHistory.redoStack (redoStack s)) as [|m rest] eqn:H.
  - rewrite redo_empty by done. by eexists.
  - erewrite redo_nonempty by done. by eexists.
Qed.

(** ** The second history object *)

(** No command touches the inner redo stack of the manager's [redoStack]
    member except to clear it. *)
Lemma exec_inner_redo_empty (c : command) (s s' : t) :
  TaskHistory.redoStack (redoStack s) = [] →
  exec c s = Some s' →
  TaskHistory.redoStack (redoStack s') = [].
Proof.
  intros Hinv Hexec. destruct c as [task|index|index|index| |]; simpl in Hexec.
  - by simplify_eq.
  - unfold markTaskCompleted in Hexec.
    destruct (index_ok index s); [|by simplify_eq].
    destruct (at_index index s) as [tk|]; [|done]. simpl in Hexec.
    destruct (negb (Task.isCompleted tk)); by simplify_eq.
  - unfold markTaskPending in Hexec.
    destruct (index_ok index s); [|by simplify_eq].
    destruct (at_index index s) as [tk|]; [|done]. simpl in Hexec.
    destruct (Task.isCompleted tk); by simplify_eq.
  - unfold deleteTask in Hexec.
    destruct (index_ok index s); [|by simplify_eq].
    destruct (at_index index s) as [tk|]; [|done]. simpl in Hexec.
    by simplify_eq.
  - destruct (TaskHistory.history (history s)) as [|m rest] eqn:H.
    + rewrite undo_empty in Hexec by done. by simplify_eq/=.
    + erewrite undo_nonempty in Hexec by done. by simplify_eq/=.
  - rewrite redo_empty in Hexec by done. by simplify_eq/=.
Qed.

Lemma reachable_inner_redo_empty (s : t) :
  reachable s → TaskHistory.redoStack (redoStack s) = [].
Proof.
  induction 1 as [|s c s' _ IH _ Hexec]; [done|].
  by eapply exec_inner_redo_empty.
Qed.

Lemma reachable_run (cs : list command) (s s' : t) :
  reachable s → Forall command_wf cs → run cs s = Some s' → reachable s'.
Proof.
  intros Hs Hwf. revert s Hs.
  induction Hwf as [|c cs Hc _ IH]; intros s Hs Hrun; simpl in Hrun.
  - by simplify_eq.
  - destruct (exec c s) as [s1|] eqn:Hexec; [|done]. simpl in Hrun.
    eapply IH; [|done]. by eapply reachable_step.
Qed.

(** Closes [Forall command_wf cs] for a literal command list. *)
Ltac solve_wf :=
  repeat (apply Forall_cons; split; [first [exact I | unfold command_wf, int_range; lia]|]);
  apply Forall_nil_2.

Lemma reachable_after (cs : list command) :
  Forall command_wf cs → is_Some (run cs init) → reachable (after cs).
Proof.
  intros Hwf [s Hs]. unfold after. rewrite Hs. simpl.
  by eapply reachable_run; [apply reachable_init| |].
Qed.

Lemma redo_n_reachable (n : nat) (s : t) :
  reachable s → redo_n n s = Some s.
Proof.
  intros Hs. induction n as [|n IH]; [done|]. simpl.
  rewrite redo_empty by by apply reachable_inner_redo_empty. simpl. exact IH.
Qed.

Lemma undo_n_reachable (n : nat) (s s' : t) :
  reachable s → undo_n n s = Some s' → reachable s'.
Proof.
  revert s. induction n as [|n IH]; intros s Hs Hn; simpl in Hn.
  - by simplify_eq.
  - destruct (undo s) as [[s1 msg]|] eqn:Hundo; [|done]. simpl in Hn.
    apply (IH s1); [|done].
    apply (reachable_step s Undo); [done|exact I|].
    simpl. by rewrite Hundo.
Qed.

(** On a reachable manager [n] calls of [redo] after [n] calls of [undo]
    change nothing: the manager stays in the state the undos left. *)
Lemma undo_n_then_redo_n (n : nat) (s s' : t) :
  reachable s → undo_n n s = Some s' → redo_n n s' = Some s'.
Proof. intros Hs Hn. eapply redo_n_reachable, undo_n_reachable; done. Qed.

(** ** Commands that do not record *)

Lemma edit_not_recorded_same (c : command) (s s' : t) :
  is_edit c → exec c s = Some s' →
  recorded s s' ∧ TaskHistory.redoStack (history s') = [] ∨ s' = s.
Proof.
  intros Hedit Hexec.
  destruct c as [task|index|index|index| |]; simpl in Hexec; try done.
  - left. simplify_eq. split; [by eexists|done].
  - unfold markTaskCompleted in Hexec.
    destruct (index_ok index s); [|right; by simplify_eq].
    destruct (at_index index s) as [tk|]; [|done]. simpl in Hexec.
    destruct (negb (Task.isCompleted tk)); simplify_eq; [left|by right].
    split; [by eexists|done].
  - unfold markTaskPending in Hexec.
    destruct (index_ok index s); [|right; by simplify_eq].
    destruct (at_index index s) as [tk|]; [|done]. simpl in Hexec.
    destruct (Task.isCompleted tk); simplify_eq; [left|by right].
    split; [by eexists|done].
  - unfold deleteTask in Hexec.
    destruct (index_ok index s); [|right; by simplify_eq].
    destruct (at_index index s) as [tk|]; [|done]. simpl in Hexec.
    simplify_eq. left. split; [by eexists|done].
Qed.

Lemma recorded_irrefl (s : t) : ¬ recorded s s.
Proof.
  intros [m Hm]. apply (f_equal length) in Hm. simpl in Hm. lia.
Qed.

(** ** The completion toggles at a valid index *)

Section ValidIndex.

Variables (index : Z) (s : t) (tk : Task.t).
Hypothesis Hint_range : int_range index.
Hypothesis Hvalid : 0 <= index < Z.of_nat (length (tasks s)).
Hypothesis Hlookup : tasks s !! Z.to_nat index = Some tk.

Lemma valid_index_guard :
  index_ok index s = true ∧ at_index index s = Some tk ∧
  size_t_of_int index = index.
Proof.
  split_and!.
  - by apply index_ok_true.
  - rewrite at_index_nonneg; [done..|lia].
  - apply size_t_of_int_nonneg; [done|lia].
Qed.

Lemma markTaskCompleted_acts :
  Task.completed tk = false →
  markTaskCompleted index s =
    Some {| tasks := <[Z.to_nat index := Task.set_completed true tk]> (tasks s);
            history := TaskHistory.addMemento (Task.save tk) (history s);
            redoStack := redoStack s |}.
Proof.
  intros Hflag. destruct valid_index_guard as (Hok & Hat & Hconv).
  unfold markTaskCompleted. rewrite Hok, Hat, Hconv. simpl.
  unfold Task.isCompleted, Task.markCompleted. by rewrite Hflag.
Qed.

Lemma markTaskCompleted_skips :
  Task.completed tk = true → markTaskCompleted index s = Some s.
Proof.
  intros Hflag. destruct valid_index_guard as (Hok & Hat & Hconv).
  unfold markTaskCompleted. rewrite Hok, Hat. simpl.
  unfold Task.isCompleted. by rewrite Hflag.
Qed.

Lemma markTaskPending_acts :
  Task.completed tk = true →
  markTaskPending index s =
    Some {| tasks := <[Z.to_nat index := Task.set_completed false tk]> (tasks s);
            history := TaskHistory.addMemento (Task.save tk) (history s);
            redoStack := redoStack s |}.
Proof.
  intros Hflag. destruct valid_index_guard as (Hok & Hat & Hconv).
  unfold markTaskPending. rewrite Hok, Hat, Hconv. simpl.
  unfold Task.isCompleted, Task.markPending. by rewrite Hflag.
Qed.

Lemma markTaskPending_skips :
  Task.completed tk = false → markTaskPending index s = Some s.
Proof.
  intros Hflag. destruct valid_index_guard as (Hok & Hat & Hconv).
  unfold markTaskPending. rewrite Hok, Hat. simpl.
  unfold Task.isCompleted. by rewrite Hflag.
Qed.

End ValidIndex.

(** * The claims *)

(** C3: in every state of the manager reachable through [addTask],
    [markTaskCompleted], [markTaskPending], [deleteTask], [undo] and [redo],
    the stack that [redo] consults (the inner redo stack of the member
    [redoStack]) is empty, so [redo] prints "Nothing to redo." and returns
    the manager as it was: tasks and both history objects unchanged. *)
Theorem redo_never_restores (s : t) :
  reachable s →
  TaskHistory.redoStack (redoStack s) = [] ∧
  TaskHistory.isRedoStackEmpty (redoStack s) = true ∧
  redo s = Some (s, "Nothing to redo.").
Proof.
  intros Hs. pose proof (reachable_inner_redo_empty s Hs) as Hinv.
  split_and!; [done| |by apply redo_empty].
  unfold TaskHistory.isRedoStackEmpty. by rewrite Hinv.
Qed.

Lemma redo_never_restores_witness :
  reachable (after [AddTask buy_milk; MarkTaskCompleted 0; Undo]) ∧
  redo (after [AddTask buy_milk; MarkTaskCompleted 0; Undo]) =
    Some (after [AddTask buy_milk; MarkTaskCompleted 0; Undo], "Nothing to redo.").
Proof.
  assert (reachable (after [AddTask buy_milk; MarkTaskCompleted 0; Undo])) as Hr.
  { apply reachable_after; [solve_wf|]. vm_compute. by eexists. }
  split; [exact Hr|].
  apply (redo_never_restores (after [AddTask buy_milk; MarkTaskCompleted 0; Undo]) Hr).
Defined.

(** C9: when the undo stack holds no snapshot, [undo] returns normally with
    the message "Nothing to undo." and the manager (tasks and both history
    objects) is exactly as before the call. *)
Theorem undo_on_empty_history (s : t) :
  TaskHistory.isEmpty (history s) = true →
  undo s = Some (s, "Nothing to undo.").
Proof.
  intros Hempty. apply undo_empty.
  unfold TaskHistory.isEmpty in Hempty.
  by destruct (TaskHistory.history (history s)).
Qed.

Lemma undo_on_empty_history_witness :
  TaskHistory.isEmpty (history init) = true ∧
  undo init = Some (init, "Nothing to undo.").
Proof.
  split; [reflexivity|].
  apply (undo_on_empty_history init). reflexivity.
Defined.

(** C8: for an index outside [0, number of tasks), [markTaskCompleted],
    [markTaskPending] and [deleteTask] return the manager unchanged: no
    snapshot is recorded and no task is modified or removed. *)
Theorem invalid_index_is_ignored (index : Z) (s : t) :
  int_range index →
  ¬ (0 <= index < Z.of_nat (length (tasks s))) →
  markTaskCompleted index s = Some s ∧
  markTaskPending index s = Some s ∧
  deleteTask index s = Some s.
Proof.
  intros Hint Hout. apply (index_ok_false index Hint) in Hout.
  unfold markTaskCompleted, markTaskPending, deleteTask.
  by rewrite Hout.
Qed.

Lemma invalid_index_is_ignored_witness :
  int_range 99 ∧
  ¬ (0 <= 99 < Z.of_nat (length (tasks s_two))) ∧
  markTaskCompleted 99 s_two = Some s_two ∧
  markTaskPending 99 s_two = Some s_two ∧
  deleteTask 99 s_two = Some s_two.
Proof.
  assert (int_range 99) as Hint by (unfold int_range; lia).
  assert (¬ (0 <= 99 < Z.of_nat (length (tasks s_two)))) as Hout
    by (vm_compute; intros [_ H]; discriminate H).
  split_and!; [exact Hint|exact Hout|..];
    apply (invalid_index_is_ignored 99 s_two Hint Hout).
Defined.

(** C10: [undo] returns, and afterwards every task of the collection has
    the description it had before the call (in every state, reachable or
    not): the task that [restore] overwrites is chosen among those whose
    description already equals the snapshot's. *)
Theorem undo_keeps_descriptions (s : t) :
  ∃ s' msg, undo s = Some (s', msg) ∧
    Task.description <$> tasks s' = Task.description <$> tasks s.
Proof.
  destruct (TaskHistory.history (history s)) as [|m rest] eqn:H.
  - exists s, "Nothing to undo.". split; [by apply undo_empty|done].
  - eexists _, _. split; [by eapply undo_nonempty|]. simpl.
    apply restore_first_descriptions.
Qed.

(** C6: when the undo stack is [m :: rest], [undo] pops [m], pushes it onto
    the redo stack of [history] and records it in the member [redoStack],
    and overwrites description, completed flag and due date of the first
    task whose description equals that of [m], every other task staying as
    it was; when no task has that description the tasks are unchanged and
    [m] is consumed all the same. *)
Theorem undo_restores_first_match (s : t) (m : TaskMemento.t)
    (rest : list TaskMemento.t) :
  TaskHistory.history (history s) = m :: rest →
  ∃ s', undo s = Some (s', "Undo successful.") ∧
    TaskHistory.history (history s') = rest ∧
    TaskHistory.redoStack (history s') = m :: TaskHistory.redoStack (history s) ∧
    TaskHistory.history (redoStack s') = m :: TaskHistory.history (redoStack s) ∧
    ((∃ before tk rest_tasks,
        tasks s = before ++ tk :: rest_tasks ∧
        Forall (λ tk', Task.description tk' ≠ TaskMemento.description m) before ∧
        Task.description tk = TaskMemento.description m ∧
        tasks s' =
          before ++
          {| Task.description := TaskMemento.description m;
             Task.completed := TaskMemento.isCompleted m;
             Task.dueDate := TaskMemento.dueDate m;
             Task.tags := Task.tags tk |} :: rest_tasks) ∨
     (Forall (λ tk, Task.description tk ≠ TaskMemento.description m) (tasks s) ∧
      tasks s' = tasks s)).
Proof.
  intros Hhist. eexists. split; [by eapply undo_nonempty|]. simpl.
  split_and!; try done.
  destruct (first_match_split m (tasks s))
    as [(before & tk & rest_tasks & Hsplit & Hbefore & Hdesc)|Hnone].
  - left. exists before, tk, rest_tasks. split_and!; try done.
    rewrite Hsplit. by apply restore_first_match.
  - right. split; [done|]. by apply restore_first_no_match.
Qed.

Lemma undo_restores_first_match_witness :
  TaskHistory.history (history s_two) =
    [TaskMemento.Build "Buy milk" false "";
     TaskMemento.Build "Call Alice" false "2024-01-01";
     TaskMemento.Build "Buy milk" false ""] ∧
  ∃ s', undo s_two = Some (s', "Undo successful.") ∧
    TaskHistory.history (history s') =
      [TaskMemento.Build "Call Alice" false "2024-01-01";
       TaskMemento.Build "Buy milk" false ""] ∧
    tasks s' = [buy_milk; call_alice].
Proof.
  split; [reflexivity|].
  destruct (undo_restores_first_match s_two
              (TaskMemento.Build "Buy milk" false "")
              [TaskMemento.Build "Call Alice" false "2024-01-01";
               TaskMemento.Build "Buy milk" false ""] eq_refl)
    as (s' & Hundo & Hhist & _).
  exists s'. split_and!; [exact Hundo|exact Hhist|].
  vm_compute in Hundo. by simplify_eq.
Defined.

(** C4: recording a snapshot clears the redo stack of [history]; after an
    [addTask], [markTaskCompleted], [markTaskPending] or [deleteTask] that
    recorded a snapshot, a [redo] called next prints "Nothing to redo." and
    returns the manager unchanged. *)
Theorem redo_after_record (s : t) (c : command) (s' : t) :
  reachable s → command_wf c → is_edit c →
  exec c s = Some s' → recorded s s' →
  TaskHistory.redoStack (history s') = [] ∧
  redo s' = Some (s', "Nothing to redo.").
Proof.
  intros Hs Hwf Hedit Hexec Hrec. split.
  - destruct (edit_not_recorded_same c s s' Hedit Hexec) as [[_ Hclear]| ->];
      [done|]. by apply recorded_irrefl in Hrec.
  - apply redo_empty, reachable_inner_redo_empty.
    by eapply reachable_step.
Qed.

Lemma redo_after_record_witness :
  TaskHistory.redoStack (history (after [AddTask buy_milk; Undo])) ≠ [] ∧
  ∃ s', exec (MarkTaskCompleted 0) (after [AddTask buy_milk; Undo]) = Some s' ∧
    TaskHistory.redoStack (history s') = [] ∧
    redo s' = Some (s', "Nothing to redo.").
Proof.
  split; [vm_compute; discriminate|].
  eexists. split; [vm_compute; reflexivity|].
  apply (redo_after_record (after [AddTask buy_milk; Undo]) (MarkTaskCompleted 0)).
  - apply reachable_after; [solve_wf|]. vm_compute. by eexists.
  - unfold command_wf, int_range. lia.
  - exact I.
  - vm_compute. reflexivity.
  - eexists. vm_compute. reflexivity.
Defined.

(** C5, as amended: for a valid index, [markTaskCompleted] followed by
    [markTaskPending] leaves the task at that index with its original
    description, due date and tags and with the completed flag false; the
    flag is the original one exactly when the task was pending before. *)
Theorem complete_then_pending (index : Z) (s : t) (tk : Task.t) :
  int_range index →
  0 <= index < Z.of_nat (length (tasks s)) →
  tasks s !! Z.to_nat index = Some tk →
  ∃ s1 s2 tk',
    markTaskCompleted index s = Some s1 ∧
    markTaskPending index s1 = Some s2 ∧
    tasks s2 !! Z.to_nat index = Some tk' ∧
    Task.description tk' = Task.description tk ∧
    Task.dueDate tk' = Task.dueDate tk ∧
    Task.tags tk' = Task.tags tk ∧
    Task.completed tk' = false ∧
    (Task.completed tk' = Task.completed tk ↔ Task.completed tk = false).
Proof.
  intros Hint Hvalid Hlook.
  assert (Z.to_nat index < length (tasks s))%nat as Hlt by lia.
  destruct (Task.completed tk) eqn:Hflag.
  - (* already completed: only markTaskPending acts *)
    eexists s, _, _. split_and!.
    + by eapply markTaskCompleted_skips.
    + by eapply markTaskPending_acts.
    + simpl. by apply list_lookup_insert_eq.
    + done.
    + done.
    + done.
    + done.
    + simpl. split; intros H; discriminate H.
  - (* pending: both calls act *)
    eexists _, _, _. split_and!.
    + by eapply markTaskCompleted_acts.
    + eapply markTaskPending_acts; simpl; [done| | |].
      * by rewrite length_insert.
      * by apply list_lookup_insert_eq.
      * done.
    + simpl. apply list_lookup_insert_eq. by rewrite length_insert.
    + done.
    + done.
    + done.
    + done.
    + done.
Qed.

Lemma complete_then_pending_witness :
  int_range 0 ∧
  0 <= 0 < Z.of_nat (length (tasks s_added)) ∧
  tasks s_added !! Z.to_nat 0 = Some buy_milk ∧
  ∃ s1 s2 tk',
    markTaskCompleted 0 s_added = Some s1 ∧
    markTaskPending 0 s1 = Some s2 ∧
    tasks s2 !! Z.to_nat 0 = Some tk' ∧
    Task.description tk' = Task.description buy_milk ∧
    Task.dueDate tk' = Task.dueDate buy_milk ∧
    Task.tags tk' = Task.tags buy_milk ∧
    Task.completed tk' = false ∧
    (Task.completed tk' = Task.completed buy_milk ↔ Task.completed buy_milk = false).
Proof.
  assert (int_range 0) as Hint by (unfold int_range; lia).
  assert (0 <= 0 < Z.of_nat (length (tasks s_added))) as Hvalid
    by (vm_compute; split; [discriminate|reflexivity]).
  refine (conj Hint (conj Hvalid (conj eq_refl _))).
  apply (complete_then_pending 0 s_added buy_milk Hint Hvalid). reflexivity.
Defined.

(** C5 as stated fails on a task that is already completed: the first call
    is skipped, the second one clears the flag. *)
Lemma complete_then_pending_loses_flag :
  reachable s_done ∧
  0 <= 0 < Z.of_nat (length (tasks s_done)) ∧
  Task.completed <$> tasks s_done !! Z.to_nat 0 = Some true ∧
  markTaskCompleted 0 s_done = Some s_done ∧
  ∃ s2, markTaskPending 0 s_done = Some s2 ∧
    Task.completed <$> tasks s2 !! Z.to_nat 0 = Some false.
Proof.
  split; [|split; [|split_and!]].
  - apply reachable_after; [solve_wf|]. vm_compute. by eexists.
  - vm_compute. split; [discriminate|reflexivity].
  - reflexivity.
  - reflexivity.
  - eexists. split; reflexivity.
Qed.

(** C7, as amended: on a reachable manager whose undo stack is [m :: rest],
    [undo] moves [m] from the undo stack of [history] to the redo stack of
    the same object (which keeps its number of snapshots) and also pushes a
    copy of [m] onto the member [redoStack]: the undo side loses one
    snapshot, the redo side gains two, and the manager holds one snapshot
    more than before. *)
Theorem undo_moves_and_copies (s : t) (m : TaskMemento.t)
    (rest : list TaskMemento.t) :
  reachable s →
  TaskHistory.history (history s) = m :: rest →
  ∃ s', undo s = Some (s', "Undo successful.") ∧
    TaskHistory.history (history s') = rest ∧
    TaskHistory.redoStack (history s') = m :: TaskHistory.redoStack (history s) ∧
    TaskHistory.count (history s') = TaskHistory.count (history s) ∧
    TaskHistory.history (redoStack s') = m :: TaskHistory.history (redoStack s) ∧
    TaskHistory.redoStack (redoStack s') = [] ∧
    S (undo_side s') = undo_side s ∧
    redo_side s' = S (S (redo_side s)) ∧
    total_snapshots s' = S (total_snapshots s).
Proof.
  intros Hs Hhist. pose proof (reachable_inner_redo_empty s Hs) as Hinv.
  eexists. split; [by eapply undo_nonempty|].
  unfold total_snapshots, undo_side, redo_side, TaskHistory.count. simpl.
  rewrite Hhist, Hinv. simpl. split_and!; try done; lia.
Qed.

Lemma undo_moves_and_copies_witness :
  reachable s_added ∧
  TaskHistory.history (history s_added) = [Task.save buy_milk] ∧
  ∃ s', undo s_added = Some (s', "Undo successful.") ∧
    TaskHistory.history (history s') = [] ∧
    TaskHistory.redoStack (history s') = [Task.save buy_milk] ∧
    TaskHistory.history (redoStack s') = [Task.save buy_milk] ∧
    total_snapshots s' = S (total_snapshots s_added).
Proof.
  assert (reachable s_added) as Hr.
  { apply reachable_after; [solve_wf|]. vm_compute. by eexists. }
  split_and!; [exact Hr|reflexivity|].
  destruct (undo_moves_and_copies s_added (Task.save buy_milk) [] Hr eq_refl)
    as (s' & Hundo & Hh & Hhr & _ & Hrh & _ & _ & _ & Htotal).
  exists s'. by split_and!.
Defined.

(** C7 as stated fails: an [undo] on a non-empty undo stack leaves the
    manager with more snapshots than it had, two of them on the redo side. *)
Lemma undo_does_not_conserve_snapshots :
  reachable s_added ∧
  TaskHistory.isEmpty (history s_added) = false ∧
  undo_side s_added = 1%nat ∧ redo_side s_added = 0%nat ∧
  total_snapshots s_added = 1%nat ∧
  ∃ s', undo s_added = Some (s', "Undo successful.") ∧
    undo_side s' = 0%nat ∧ redo_side s' = 2%nat ∧
    total_snapshots s' = 2%nat ∧
    total_snapshots s' ≠ total_snapshots s_added.
Proof.
  split_and!; try reflexivity.
  - apply reachable_after; [solve_wf|]. vm_compute. by eexists.
  - eexists. split_and!; try reflexivity. vm_compute. discriminate.
Qed.

(** C1 fails on the code: after one task is added and completed, one
    [undo] followed by one [redo] leaves the task pending, while it was
    completed before the [undo]. The recorded depth is two. *)
Theorem undo_then_redo_does_not_return :
  reachable s_done ∧
  (1 ≤ undo_side s_done)%nat ∧
  tasks s_done = [Task.set_completed true buy_milk] ∧
  ∃ s1 s2, undo_n 1 s_done = Some s1 ∧ redo_n 1 s1 = Some s2 ∧
    tasks s2 = [buy_milk] ∧ tasks s2 ≠ tasks s_done.
Proof.
  split_and!.
  - apply reachable_after; [solve_wf|]. vm_compute. by eexists.
  - vm_compute. lia.
  - reflexivity.
  - eexists _, _. split_and!; try reflexivity. vm_compute. discriminate.
Qed.

(** C2 fails on the code: the [undo] after one [addTask] consumes the
    snapshot and stores it on the redo stack of [history] and on the undo
    stack of the member [redoStack], but [redo] looks at the inner redo
    stack of [redoStack], finds it empty and prints "Nothing to redo.". *)
Theorem redo_after_undo_reports_nothing :
  ∃ s1, undo s_added = Some (s1, "Undo successful.") ∧
    TaskHistory.history (history s1) = [] ∧
    TaskHistory.redoStack (history s1) = [Task.save buy_milk] ∧
    TaskHistory.history (redoStack s1) = [Task.save buy_milk] ∧
    TaskHistory.redoStack (redoStack s1) = [] ∧
    redo s1 = Some (s1, "Nothing to redo.").
Proof. eexists. split_and!; reflexivity. Qed.

(** * Further properties of the code *)

(** ** Task and its builder *)

Lemma foldl_setters (b : Task.Builder.t) (chain : list setter) :
  foldl apply_setter b chain =
    {| Task.Builder.description := Task.Builder.description b;
       Task.Builder.completed := Task.Builder.completed b;
       Task.Builder.dueDate :=
         default (Task.Builder.dueDate b) (last (omap due_date_of chain));
       Task.Builder.tags :=
         default (Task.Builder.tags b) (last (omap tags_of chain)) |}.
Proof.
  revert b. induction chain as [|st chain IH]; intros b.
  - by destruct b.
  - cbn [foldl]. rewrite IH. clear IH. unfold omap.
    destruct st as [date|taskTags]; simpl; f_equal;
      rewrite last_cons; by destruct (last _).
Qed.

(** X1: whatever setters are chained on [Builder(desc)], in whatever order
    and however often, the task built has description [desc], is pending,
    has the due date of the last [setDueDate] (empty when there is none)
    and the tags of the last [setTags] (none when there is none). *)
Theorem build_chain_result (desc : string) (chain : list setter) :
  build_chain desc chain =
    {| Task.description := desc;
       Task.completed := false;
       Task.dueDate := default "" (last (omap due_date_of chain));
       Task.tags := default [] (last (omap tags_of chain)) |}.
Proof. unfold build_chain. by rewrite foldl_setters. Qed.

(** X2: a snapshot and the task it is taken from round-trip: restoring a
    task from its own snapshot changes nothing, a task restored from a
    snapshot [m] saves to [m] again, and [restore] keeps the tags. *)
Theorem save_restore_round_trip (tk : Task.t) (m : TaskMemento.t) :
  Task.restore (Task.save tk) tk = tk ∧
  Task.save (Task.restore m tk) = m ∧
  Task.tags (Task.restore m tk) = Task.tags tk.
Proof. by destruct tk, m. Qed.

(** ** TaskHistory *)

(** X3: within one history object [getMemento] and [redo] are inverse to
    each other: [getMemento] takes [h] to [h'] returning [m] exactly when
    [redo] takes [h'] back to [h] returning [m]. *)
Theorem getMemento_redo_inverse (h h' : TaskHistory.t) (m : TaskMemento.t) :
  TaskHistory.getMemento h = Some (m, h') ↔ TaskHistory.redo h' = Some (m, h).
Proof.
  unfold TaskHistory.getMemento, TaskHistory.redo.
  destruct h as [hs rs], h' as [hs' rs']; simpl. split.
  - destruct hs as [|m0 hs0]; [done|]. intros Heq. by simplify_eq.
  - destruct rs' as [|m0 rs0]; [done|]. intros Heq. by simplify_eq.
Qed.

Lemma getMemento_redo_inverse_witness :
  TaskHistory.redo
    {| TaskHistory.history := []; TaskHistory.redoStack := [Task.save buy_milk] |} =
  Some (Task.save buy_milk,
        {| TaskHistory.history := [Task.save buy_milk]; TaskHistory.redoStack := [] |}).
Proof.
  apply (proj1 (getMemento_redo_inverse
                  {| TaskHistory.history := [Task.save buy_milk];
                     TaskHistory.redoStack := [] |}
                  {| TaskHistory.history := [];
                     TaskHistory.redoStack := [Task.save buy_milk] |}
                  (Task.save buy_milk))).
  reflexivity.
Defined.

(** X4: the emptiness tests are exactly the guards the pops need:
    [getMemento] is defined if and only if [isEmpty] is false, and [redo]
    if and only if [isRedoStackEmpty] is false. *)
Theorem pops_defined_iff_guards (h : TaskHistory.t) :
  (is_Some (TaskHistory.getMemento h) ↔ TaskHistory.isEmpty h = false) ∧
  (is_Some (TaskHistory.redo h) ↔ TaskHistory.isRedoStackEmpty h = false).
Proof.
  unfold TaskHistory.getMemento, TaskHistory.redo, TaskHistory.isEmpty,
    TaskHistory.isRedoStackEmpty.
  split.
  - destruct (TaskHistory.history h); split; intros H;
      first [done | by destruct H | by eexists].
  - destruct (TaskHistory.redoStack h); split; intros H;
      first [done | by destruct H | by eexists].
Qed.

(** X5: [getMemento] and [redo] only move a snapshot between the two stacks
    of the object: the stack they pop loses one snapshot, the other gains
    one, and the object holds as many snapshots as before. *)
Theorem pops_conserve_count (h h' : TaskHistory.t) (m : TaskMemento.t) :
  (TaskHistory.getMemento h = Some (m, h') →
     TaskHistory.history h = m :: TaskHistory.history h' ∧
     TaskHistory.redoStack h' = m :: TaskHistory.redoStack h ∧
     TaskHistory.count h' = TaskHistory.count h) ∧
  (TaskHistory.redo h = Some (m, h') →
     TaskHistory.redoStack h = m :: TaskHistory.redoStack h' ∧
     TaskHistory.history h' = m :: TaskHistory.history h ∧
     TaskHistory.count h' = TaskHistory.count h).
Proof.
  unfold TaskHistory.getMemento, TaskHistory.redo, TaskHistory.count.
  destruct h as [hs rs]; simpl. split.
  - destruct hs as [|m0 hs0]; [done|]. intros Heq. simplify_eq. simpl.
    split_and!; [done..|lia].
  - destruct rs as [|m0 rs0]; [done|]. intros Heq. simplify_eq. simpl.
    split_and!; [done..|lia].
Qed.

Lemma pops_conserve_count_witness :
  TaskHistory.count
    {| TaskHistory.history := []; TaskHistory.redoStack := [Task.save buy_milk] |} =
  TaskHistory.count (history s_added).
Proof.
  apply (proj1 (pops_conserve_count (history s_added)
                  {| TaskHistory.history := [];
                     TaskHistory.redoStack := [Task.save buy_milk] |}
                  (Task.save buy_milk))).
  reflexivity.
Defined.

(** ** The manager: every call returns *)

Lemma exec_returns (c : command) (s : t) : command_wf c → is_Some (exec c s).
Proof.
  intros Hwf. destruct c as [task|index|index|index| |]; simpl in *.
  - by eexists.
  - unfold markTaskCompleted.
    destruct (index_ok index s) eqn:Hok; [|by eexists].
    destruct (at_index_is_Some index Hwf s Hok) as [tk ->]. simpl.
    destruct (negb _); by eexists.
  - unfold markTaskPending.
    destruct (index_ok index s) eqn:Hok; [|by eexists].
    destruct (at_index_is_Some index Hwf s Hok) as [tk ->]. simpl.
    destruct (Task.isCompleted _); by eexists.
  - unfold deleteTask.
    destruct (index_ok index s) eqn:Hok; [|by eexists].
    destruct (at_index_is_Some index Hwf s Hok) as [tk ->]. simpl.
    by eexists.
  - destruct (undo_returns s) as [[s' msg] ->]. by eexists.
  - destruct (redo_returns s) as [[s' msg] ->]. by eexists.
Qed.

(** X6: from any state of the manager, every sequence of calls whose
    indices are [int] values returns normally: the guards keep [top()],
    [pop()] and [tasks[index]] inside their domain, so no call runs into
    undefined behaviour. *)
Theorem run_returns (cs : list command) (s : t) :
  Forall command_wf cs → is_Some (run cs s).
Proof.
  intros Hwf. revert s. induction Hwf as [|c cs Hc _ IH]; intros s.
  - by eexists.
  - simpl. destruct (exec_returns c s Hc) as [s' ->]. simpl. apply IH.
Qed.

Lemma run_returns_witness :
  Forall command_wf [DeleteTask 5; Undo; MarkTaskPending (-1); Redo] ∧
  is_Some (run [DeleteTask 5; Undo; MarkTaskPending (-1); Redo] s_two).
Proof.
  assert (Forall command_wf [DeleteTask 5; Undo; MarkTaskPending (-1); Redo])
    as Hwf by solve_wf.
  split; [exact Hwf|].
  apply (run_returns [DeleteTask 5; Undo; MarkTaskPending (-1); Redo] s_two Hwf).
Defined.

(** ** The manager: what a command does to the two history objects *)

(** The ways a command can change the two history objects. *)
Lemma exec_histories_cases (c : command) (s s' : t) :
  exec c s = Some s' →
  (history s' = history s ∧ redoStack s' = redoStack s) ∨
  (∃ m, history s' = TaskHistory.addMemento m (history s) ∧
        redoStack s' = redoStack s) ∨
  (∃ m h, c = Undo ∧ TaskHistory.getMemento (history s) = Some (m, h) ∧
        history s' = h ∧
        redoStack s' = TaskHistory.addMemento m (redoStack s)) ∨
  (∃ m r, c = Redo ∧ TaskHistory.redo (redoStack s) = Some (m, r) ∧
        history s' = TaskHistory.addMemento m (history s) ∧
        redoStack s' = r).
Proof.
  intros Hexec. destruct c as [task|index|index|index| |]; simpl in Hexec.
  - right; left. simplify_eq. by eexists.
  - unfold markTaskCompleted in Hexec.
    destruct (index_ok index s); [|left; by simplify_eq].
    destruct (at_index index s) as [tk|]; [|done]. simpl in Hexec.
    destruct (negb (Task.isCompleted tk)); simplify_eq; [|by left].
    right; left. by eexists.
  - unfold markTaskPending in Hexec.
    destruct (index_ok index s); [|left; by simplify_eq].
    destruct (at_index index s) as [tk|]; [|done]. simpl in Hexec.
    destruct (Task.isCompleted tk); simplify_eq; [|by left].
    right; left. by eexists.
  - unfold deleteTask in Hexec.
    destruct (index_ok index s); [|left; by simplify_eq].
    destruct (at_index index s) as [tk|]; [|done]. simpl in Hexec.
    simplify_eq. right; left. by eexists.
  - destruct (TaskHistory.history (history s)) as [|m rest] eqn:H.
    + rewrite undo_empty in Hexec by done. left. by simplify_eq/=.
    + erewrite undo_nonempty in Hexec by done. simplify_eq/=.
      right; right; left. eexists _, _. split_and!; try done.
      unfold TaskHistory.getMemento. by rewrite H.
  - destruct (TaskHistory.redoStack (redoStack s)) as [|m rest] eqn:H.
    + rewrite redo_empty in Hexec by done. left. by simplify_eq/=.
    + erewrite redo_nonempty in Hexec by done. simplify_eq/=.
      right; right; right. eexists _, _. split_and!; try done.
      unfold TaskHistory.redo. by rewrite H.
Qed.

(** X7: a command changes the two history objects in one of four ways
    only: not at all; by recording one snapshot in [history] (the member
    [redoStack] untouched); for [undo], by [getMemento] on [history] and
    recording the snapshot returned in [redoStack]; for [redo], by [redo]
    on [redoStack] and recording the snapshot returned in [history]. *)
Theorem exec_histories (c : command) (s s' : t) :
  exec c s = Some s' →
  (history s' = history s ∧ redoStack s' = redoStack s) ∨
  (∃ m, history s' = TaskHistory.addMemento m (history s) ∧
        redoStack s' = redoStack s) ∨
  (∃ m h, c = Undo ∧ TaskHistory.getMemento (history s) = Some (m, h) ∧
        history s' = h ∧
        redoStack s' = TaskHistory.addMemento m (redoStack s)) ∨
  (∃ m r, c = Redo ∧ TaskHistory.redo (redoStack s) = Some (m, r) ∧
        history s' = TaskHistory.addMemento m (history s) ∧
        redoStack s' = r).
Proof. apply exec_histories_cases. Qed.

Lemma exec_histories_witness :
  ∃ m h, TaskHistory.getMemento (history s_done) = Some (m, h) ∧
    history (after [AddTask buy_milk; MarkTaskCompleted 0; Undo]) = h ∧
    redoStack (after [AddTask buy_milk; MarkTaskCompleted 0; Undo]) =
      TaskHistory.addMemento m (redoStack s_done).
Proof.
  destruct (exec_histories Undo s_done
              (after [AddTask buy_milk; MarkTaskCompleted 0; Undo]) eq_refl)
    as [[H _]|[(m & H & _)|[(m & h & _ & Hget & Hh & Hr)|(m & r & H & _)]]].
  - vm_compute in H. discriminate H.
  - vm_compute in H. discriminate H.
  - by exists m, h.
  - discriminate H.
Defined.

(** X8: in every reachable state the redo stack of [history] is a prefix
    (from the top) of the undo stack of the member [redoStack]: the second
    object keeps every snapshot ever undone, also those that a later edit
    dropped from the redo stack of [history]. *)
Theorem undone_snapshots_accumulate (s : t) :
  reachable s →
  TaskHistory.redoStack (history s) `prefix_of` TaskHistory.history (redoStack s).
Proof.
  induction 1 as [|s c s' Hs IH _ Hexec]; [by exists []|].
  pose proof (reachable_inner_redo_empty s Hs) as Hinner.
  destruct (exec_histories_cases c s s' Hexec)
    as [[-> ->]|[(m & -> & ->)|[(m & h & _ & Hget & -> & ->)|(m & r & _ & Hredo & _)]]].
  - done.
  - simpl. apply prefix_nil.
  - unfold TaskHistory.getMemento in Hget.
    destruct (TaskHistory.history (history s)); simplify_eq/=.
    by apply prefix_cons.
  - unfold TaskHistory.redo in Hredo. by rewrite Hinner in Hredo.
Qed.

Lemma undone_snapshots_accumulate_witness :
  reachable (after [AddTask buy_milk; Undo; AddTask call_alice]) ∧
  TaskHistory.redoStack (history (after [AddTask buy_milk; Undo; AddTask call_alice]))
    `prefix_of`
  TaskHistory.history (redoStack (after [AddTask buy_milk; Undo; AddTask call_alice])).
Proof.
  assert (reachable (after [AddTask buy_milk; Undo; AddTask call_alice])) as Hr.
  { apply reachable_after; [solve_wf|]. vm_compute. by eexists. }
  split; [exact Hr|].
  apply (undone_snapshots_accumulate _ Hr).
Defined.

(** X9: on a reachable manager no call ever removes a snapshot from the
    undo stack of the member [redoStack]: after any command the stack of
    before is a suffix of the stack of after, so that stack only grows
    during a run. *)
Theorem second_history_only_grows (c : command) (s s' : t) :
  reachable s → exec c s = Some s' →
  TaskHistory.history (redoStack s) `suffix_of` TaskHistory.history (redoStack s').
Proof.
  intros Hs Hexec.
  pose proof (reachable_inner_redo_empty s Hs) as Hinner.
  destruct (exec_histories_cases c s s' Hexec)
    as [[_ ->]|[(m & _ & ->)|[(m & h & _ & _ & _ & ->)|(m & r & _ & Hredo & _)]]].
  - done.
  - done.
  - simpl. by apply suffix_cons_r.
  - unfold TaskHistory.redo in Hredo. by rewrite Hinner in Hredo.
Qed.

Lemma second_history_only_grows_witness :
  TaskHistory.history (redoStack s_done) `suffix_of`
  TaskHistory.history (redoStack (after [AddTask buy_milk; MarkTaskCompleted 0; Undo])).
Proof.
  apply (second_history_only_grows Undo s_done).
  - apply reachable_after; [solve_wf|]. vm_compute. by eexists.
  - reflexivity.
Defined.

(** ** The manager: what a command does to the tasks *)

(** X10: at a valid index [markTaskCompleted] leaves the task completed and
    [markTaskPending] leaves it pending, with its description, due date and
    tags and with every other task as before; the snapshot of the task as
    it was is recorded when the flag changes, and nothing at all changes
    when the task already has the flag asked for. *)
Theorem toggles_effect (index : Z) (s : t) (tk : Task.t) :
  int_range index →
  0 <= index < Z.of_nat (length (tasks s)) →
  tasks s !! Z.to_nat index = Some tk →
  ∃ s1 s2,
    markTaskCompleted index s = Some s1 ∧
    markTaskPending index s = Some s2 ∧
    tasks s1 = <[Z.to_nat index := Task.set_completed true tk]> (tasks s) ∧
    tasks s2 = <[Z.to_nat index := Task.set_completed false tk]> (tasks s) ∧
    (if Task.completed tk
     then s1 = s ∧ history s2 = TaskHistory.addMemento (Task.save tk) (history s)
     else s2 = s ∧ history s1 = TaskHistory.addMemento (Task.save tk) (history s)) ∧
    redoStack s1 = redoStack s ∧ redoStack s2 = redoStack s.
Proof.
  intros Hint Hvalid Hlook.
  destruct (Task.completed tk) eqn:Hflag.
  - exists s. eexists. split; [by eapply markTaskCompleted_skips|].
    split; [by eapply markTaskPending_acts|]. simpl. split_and!; try done.
    symmetry. apply list_insert_id. rewrite Hlook. f_equal.
    destruct tk; simpl in *; by subst.
  - eexists. exists s. split; [by eapply markTaskCompleted_acts|].
    split; [by eapply markTaskPending_skips|]. simpl. split_and!; try done.
    symmetry. apply list_insert_id. rewrite Hlook. f_equal.
    destruct tk; simpl in *; by subst.
Qed.

Lemma toggles_effect_witness :
  ∃ s1 s2,
    markTaskCompleted 1 s_two = Some s1 ∧
    markTaskPending 1 s_two = Some s2 ∧
    tasks s1 = <[Z.to_nat 1 := Task.set_completed true call_alice]> (tasks s_two) ∧
    tasks s2 = <[Z.to_nat 1 := Task.set_completed false call_alice]> (tasks s_two) ∧
    (if Task.completed call_alice
     then s1 = s_two ∧
          history s2 = TaskHistory.addMemento (Task.save call_alice) (history s_two)
     else s2 = s_two ∧
          history s1 = TaskHistory.addMemento (Task.save call_alice) (history s_two)) ∧
    redoStack s1 = redoStack s_two ∧ redoStack s2 = redoStack s_two.
Proof.
  apply (toggles_effect 1 s_two call_alice).
  - unfold int_range. lia.
  - vm_compute. split; [discriminate|reflexivity].
  - reflexivity.
Defined.


Lemma restore_first_tags (m : TaskMemento.t) (ts : list Task.t) :
  Task.tags <$> restore_first m ts = Task.tags <$> ts.
Proof.
  induction ts as [|tk ts IH]; [done|]. cbn [restore_first].
  destruct (String.eqb _ _); rewrite !fmap_cons; [done|]. by rewrite IH.
Qed.

Lemma fmap_insert_same {A B : Type} (f : A → B) (l : list A) (i : nat) (x y : A) :
  l !! i = Some x → f y = f x → f <$> <[i:=y]> l = f <$> l.
Proof.
  intros Hl Hf. rewrite list_fmap_insert, Hf.
  apply list_insert_id. by rewrite list_lookup_fmap, Hl.
Qed.

(** X11: only [addTask] and [deleteTask] change which tasks there are:
    after any other call ([markTaskCompleted], [markTaskPending], [undo],
    [redo]) the collection has the same length and, position by position,
    the same descriptions and the same tags as before. *)
Theorem only_add_and_delete_resize (c : command) (s s' : t) :
  ¬ resizes c → exec c s = Some s' →
  length (tasks s') = length (tasks s) ∧
  Task.description <$> tasks s' = Task.description <$> tasks s ∧
  Task.tags <$> tasks s' = Task.tags <$> tasks s.
Proof.
  intros Hc Hexec.
  assert (Task.description <$> tasks s' = Task.description <$> tasks s ∧
          Task.tags <$> tasks s' = Task.tags <$> tasks s) as [Hd Ht].
  { destruct c as [task|index|index|index| |]; simpl in Hexec, Hc; try done.
    - unfold markTaskCompleted, at_index in Hexec.
      destruct (index_ok index s); [|by simplify_eq].
      destruct (tasks s !! _) as [tk|] eqn:Hl; [|done]. simpl in Hexec.
      destruct (negb (Task.isCompleted tk)); simplify_eq; [|done]. simpl.
      split; apply (fmap_insert_same _ _ _ tk); try done;
        unfold Task.markCompleted; by destruct (negb _).
    - unfold markTaskPending, at_index in Hexec.
      destruct (index_ok index s); [|by simplify_eq].
      destruct (tasks s !! _) as [tk|] eqn:Hl; [|done]. simpl in Hexec.
      destruct (Task.isCompleted tk); simplify_eq; [|done]. simpl.
      split; apply (fmap_insert_same _ _ _ tk); try done;
        unfold Task.markPending; by destruct (Task.completed _).
    - destruct (TaskHistory.history (history s)) as [|m rest] eqn:H.
      + rewrite undo_empty in Hexec by done. by simplify_eq/=.
      + erewrite undo_nonempty in Hexec by done. simplify_eq/=.
        split; [apply restore_first_descriptions|apply restore_first_tags].
    - destruct (TaskHistory.redoStack (redoStack s)) as [|m rest] eqn:H.
      + rewrite redo_empty in Hexec by done. by simplify_eq/=.
      + erewrite redo_nonempty in Hexec by done. simplify_eq/=.
        split; [apply restore_first_descriptions|apply restore_first_tags]. }
  split_and!; [|done..].
  by rewrite <- (length_fmap Task.description (tasks s')), Hd, length_fmap.
Qed.

Lemma only_add_and_delete_resize_witness :
  ¬ resizes Undo ∧
  Task.description <$> tasks (after [AddTask buy_milk; AddTask call_alice;
                                     MarkTaskCompleted 0; Undo]) =
  Task.description <$> tasks s_two.
Proof.
  assert (¬ resizes Undo) as Hc by (intros H; exact H).
  split; [exact Hc|].
  apply (only_add_and_delete_resize Undo s_two _ Hc eq_refl).
Defined.

(** X12: [deleteTask] at a valid index removes exactly the task at that
    index: the collection is one shorter, the tasks before the index keep
    their positions, those after it move down by one, and the snapshot of
    the removed task is recorded in [history]. *)
Theorem deleteTask_removes (index : Z) (s : t) (tk : Task.t) :
  int_range index →
  0 <= index < Z.of_nat (length (tasks s)) →
  tasks s !! Z.to_nat index = Some tk →
  ∃ s', deleteTask index s = Some s' ∧
    S (length (tasks s')) = length (tasks s) ∧
    (∀ j, (j < Z.to_nat index)%nat → tasks s' !! j = tasks s !! j) ∧
    (∀ j, (Z.to_nat index ≤ j)%nat → tasks s' !! j = tasks s !! S j) ∧
    history s' = TaskHistory.addMemento (Task.save tk) (history s) ∧
    redoStack s' = redoStack s.
Proof.
  intros Hint Hvalid Hlook.
  destruct (valid_index_guard index s tk Hint Hvalid Hlook) as (Hok & Hat & _).
  unfold deleteTask. rewrite Hok, Hat. simpl. eexists. split; [done|]. simpl.
  split_and!; try done.
  - rewrite length_delete by by eexists.
    assert (Z.to_nat index < length (tasks s))%nat by lia. lia.
  - intros j Hj. by apply list_lookup_delete_lt.
  - intros j Hj. by apply list_lookup_delete_ge.
Qed.

Lemma deleteTask_removes_witness :
  int_range 0 ∧ 0 <= 0 < Z.of_nat (length (tasks s_two)) ∧
  ∃ s', deleteTask 0 s_two = Some s' ∧ tasks s' !! 0%nat = tasks s_two !! 1%nat.
Proof.
  assert (int_range 0) as Hint by (unfold int_range; lia).
  assert (0 <= 0 < Z.of_nat (length (tasks s_two))) as Hvalid
    by (vm_compute; split; [discriminate|reflexivity]).
  refine (conj Hint (conj Hvalid _)).
  destruct (deleteTask_removes 0 s_two (Task.set_completed true buy_milk)
              Hint Hvalid eq_refl) as (s' & Hdel & _ & _ & Hge & _).
  exists s'. split; [exact Hdel|]. apply (Hge 0%nat). simpl. lia.
Defined.

(** X13: [markTaskCompleted] and [markTaskPending] are idempotent: called
    a second time with the same index they change nothing and record no
    second snapshot. *)
Theorem toggles_idempotent (index : Z) (s s1 : t) :
  (markTaskCompleted index s = Some s1 → markTaskCompleted index s1 = Some s1) ∧
  (markTaskPending index s = Some s1 → markTaskPending index s1 = Some s1).
Proof.
  split; intros Hfirst.
  - unfold markTaskCompleted, at_index in Hfirst.
    destruct (index_ok index s) eqn:Hok.
    2: { simplify_eq. unfold markTaskCompleted. by rewrite Hok. }
    destruct (tasks s !! _) as [tk|] eqn:Hl; [|done]. simpl in Hfirst.
    destruct (negb (Task.isCompleted tk)) eqn:Hflag; simplify_eq.
    + unfold markTaskCompleted, at_index, index_ok in *. simpl.
      rewrite length_insert, Hok.
      rewrite list_lookup_insert_eq by by eapply lookup_lt_Some. simpl.
      unfold Task.markCompleted, Task.isCompleted in *. by rewrite Hflag.
    + unfold markTaskCompleted, at_index. by rewrite Hok, Hl; simpl; rewrite Hflag.
  - unfold markTaskPending, at_index in Hfirst.
    destruct (index_ok index s) eqn:Hok.
    2: { simplify_eq. unfold markTaskPending. by rewrite Hok. }
    destruct (tasks s !! _) as [tk|] eqn:Hl; [|done]. simpl in Hfirst.
    destruct (Task.isCompleted tk) eqn:Hflag; simplify_eq.
    + unfold markTaskPending, at_index, index_ok in *. simpl.
      rewrite length_insert, Hok.
      rewrite list_lookup_insert_eq by by eapply lookup_lt_Some. simpl.
      unfold Task.markPending, Task.isCompleted in *. by rewrite Hflag.
    + unfold markTaskPending, at_index. by rewrite Hok, Hl; simpl; rewrite Hflag.
Qed.

Lemma toggles_idempotent_witness :
  markTaskCompleted 0 s_done = Some s_done.
Proof.
  apply (proj1 (toggles_idempotent 0 s_added s_done)). reflexivity.
Defined.

(** ** Undo after an edit *)

Lemma restore_first_at (m : TaskMemento.t) (ts : list Task.t) (i : nat)
    (tk : Task.t) :
  ts !! i = Some tk →
  Task.getDescription tk = TaskMemento.getDescription m →
  Forall (λ tk', Task.getDescription tk' ≠ TaskMemento.getDescription m) (take i ts) →
  restore_first m ts = <[i := Task.restore m tk]> ts.
Proof.
  intros Hl Hd Hbefore.
  rewrite <- (take_drop_middle ts i tk Hl) at 1.
  rewrite restore_first_match by done.
  symmetry. apply insert_take_drop. by eapply lookup_lt_Some.
Qed.

(** X14: [undo] right after a completion toggle that acted gives the tasks
    back exactly, provided the task toggled is the first one with its
    description: after [markTaskCompleted] on a pending task, or
    [markTaskPending] on a completed one, [undo] prints "Undo successful."
    and leaves the collection and the undo stack as they were before the
    toggle. *)
Theorem undo_reverts_toggle (index : Z) (s : t) (tk : Task.t) (c : command) :
  int_range index →
  0 <= index < Z.of_nat (length (tasks s)) →
  tasks s !! Z.to_nat index = Some tk →
  Forall (λ tk', Task.description tk' ≠ Task.description tk)
    (take (Z.to_nat index) (tasks s)) →
  (c = MarkTaskCompleted index ∧ Task.completed tk = false) ∨
  (c = MarkTaskPending index ∧ Task.completed tk = true) →
  ∃ s1 s2, exec c s = Some s1 ∧ tasks s1 ≠ tasks s ∧
    undo s1 = Some (s2, "Undo successful.") ∧
    tasks s2 = tasks s ∧
    TaskHistory.history (history s2) = TaskHistory.history (history s).
Proof.
  intros Hint Hvalid Hlook Hfirst Hc.
  assert (Z.to_nat index < length (tasks s))%nat as Hlt by lia.
  assert (∃ flag, flag ≠ Task.completed tk ∧
            exec c s =
              Some {| tasks := <[Z.to_nat index := Task.set_completed flag tk]> (tasks s);
                      history := TaskHistory.addMemento (Task.save tk) (history s);
                      redoStack := redoStack s |}) as (flag & Hflag & Hexec).
  { destruct Hc as [[-> Hc]|[-> Hc]]; [exists true|exists false];
      (split; [by rewrite Hc|]); simpl.
    - by apply markTaskCompleted_acts.
    - by apply markTaskPending_acts. }
  eexists _, _. split; [exact Hexec|]. simpl. split_and!.
  - intros Heq. apply (f_equal (λ l, Task.completed <$> l !! Z.to_nat index)) in Heq.
    rewrite list_lookup_insert_eq, Hlook in Heq by done. simpl in Heq.
    by simplify_eq.
  - by eapply undo_nonempty.
  - simpl.
    rewrite (restore_first_at _ _ (Z.to_nat index) (Task.set_completed flag tk)).
    + rewrite list_insert_insert_eq. apply list_insert_id.
      rewrite Hlook. by destruct tk.
    + by apply list_lookup_insert_eq.
    + done.
    + by rewrite take_insert_ge.
  - done.
Qed.

Lemma undo_reverts_toggle_witness :
  ∃ s1 s2, exec (MarkTaskCompleted 1) s_two = Some s1 ∧ tasks s1 ≠ tasks s_two ∧
    undo s1 = Some (s2, "Undo successful.") ∧
    tasks s2 = tasks s_two ∧
    TaskHistory.history (history s2) = TaskHistory.history (history s_two).
Proof.
  apply (undo_reverts_toggle 1 s_two call_alice (MarkTaskCompleted 1)).
  - unfold int_range. lia.
  - vm_compute. split; [discriminate|reflexivity].
  - reflexivity.
  - vm_compute. apply Forall_cons. split; [discriminate|apply Forall_nil_2].
  - left. split; reflexivity.
Defined.

(** X15: with two tasks of the same description [undo] reverts the wrong
    one: when an earlier task [tj] (the first with that description) shares
    the description of the pending task [tk] at the index completed, the
    [undo] after [markTaskCompleted] leaves [tk] completed and overwrites
    [tj] with the completed flag (false) and the due date of [tk]. *)
Theorem undo_hits_first_namesake (index : Z) (s : t) (tk tj : Task.t) (j : nat) :
  int_range index →
  0 <= index < Z.of_nat (length (tasks s)) →
  tasks s !! Z.to_nat index = Some tk →
  Task.completed tk = false →
  (j < Z.to_nat index)%nat →
  tasks s !! j = Some tj →
  Task.description tj = Task.description tk →
  Forall (λ tk', Task.description tk' ≠ Task.description tk) (take j (tasks s)) →
  ∃ s1 s2, markTaskCompleted index s = Some s1 ∧
    undo s1 = Some (s2, "Undo successful.") ∧
    tasks s2 !! Z.to_nat index = Some (Task.set_completed true tk) ∧
    tasks s2 !! j =
      Some {| Task.description := Task.description tj;
              Task.completed := false;
              Task.dueDate := Task.dueDate tk;
              Task.tags := Task.tags tj |}.
Proof.
  intros Hint Hvalid Hlook Hpending Hj Hlj Hsame Hfirst.
  assert (Z.to_nat index < length (tasks s))%nat as Hlt by lia.
  eexists _, _. split; [by eapply markTaskCompleted_acts|].
  split; [by eapply undo_nonempty|]. simpl.
  rewrite (restore_first_at _ _ j tj).
  - split.
    + rewrite list_lookup_insert_ne by lia. by apply list_lookup_insert_eq.
    + rewrite list_lookup_insert_eq by (rewrite length_insert; lia).
      unfold Task.restore. simpl. by rewrite Hsame, Hpending.
  - rewrite list_lookup_insert_ne by lia. done.
  - done.
  - rewrite take_insert_ge by lia. done.
Qed.

Lemma undo_hits_first_namesake_witness :
  ∃ s1 s2,
    markTaskCompleted 1
      (after [AddTask buy_milk; MarkTaskCompleted 0; AddTask buy_milk]) = Some s1 ∧
    undo s1 = Some (s2, "Undo successful.") ∧
    tasks s2 !! Z.to_nat 1 = Some (Task.set_completed true buy_milk) ∧
    tasks s2 !! 0%nat = Some buy_milk.
Proof.
  apply (undo_hits_first_namesake 1
           (after [AddTask buy_milk; MarkTaskCompleted 0; AddTask buy_milk])
           buy_milk (Task.set_completed true buy_milk) 0).
  - unfold int_range. lia.
  - vm_compute. split; [discriminate|reflexivity].
  - reflexivity.
  - reflexivity.
  - simpl. lia.
  - reflexivity.
  - reflexivity.
  - apply Forall_nil_2.
Defined.

(** X16: [undo] does not take back an [addTask]: when no task had the
    description of the task added, the [undo] after the [addTask] prints
    "Undo successful.", pops the snapshot, and leaves the collection as the
    [addTask] made it, the new task included. *)
Theorem undo_keeps_added_task (task : Task.t) (s : t) :
  Forall (λ tk, Task.description tk ≠ Task.description task) (tasks s) →
  ∃ s', undo (addTask task s) = Some (s', "Undo successful.") ∧
    tasks s' = tasks s ++ [task] ∧
    TaskHistory.history (history s') = TaskHistory.history (history s).
Proof.
  intros Hfresh. eexists. split; [by eapply undo_nonempty|]. simpl.
  split; [|done]. rewrite restore_first_match by done. by destruct task.
Qed.

Lemma undo_keeps_added_task_witness :
  ∃ s', undo (addTask call_alice s_added) = Some (s', "Undo successful.") ∧
    tasks s' = tasks s_added ++ [call_alice] ∧
    TaskHistory.history (history s') = TaskHistory.history (history s_added).
Proof.
  apply (undo_keeps_added_task call_alice s_added).
  vm_compute. apply Forall_cons. split; [discriminate|apply Forall_nil_2].
Defined.

(** X17: [undo] does not put a deleted task back: when no remaining task
    has the description of the task deleted, the [undo] after the
    [deleteTask] prints "Undo successful.", pops the snapshot, and leaves
    the collection without the deleted task. *)
Theorem undo_keeps_task_deleted (index : Z) (s : t) (tk : Task.t) :
  int_range index →
  0 <= index < Z.of_nat (length (tasks s)) →
  tasks s !! Z.to_nat index = Some tk →
  Forall (λ tk', Task.description tk' ≠ Task.description tk)
    (delete (Z.to_nat index) (tasks s)) →
  ∃ s1 s2, deleteTask index s = Some s1 ∧
    undo s1 = Some (s2, "Undo successful.") ∧
    tasks s2 = delete (Z.to_nat index) (tasks s) ∧
    S (length (tasks s2)) = length (tasks s) ∧
    TaskHistory.history (history s2) = TaskHistory.history (history s).
Proof.
  intros Hint Hvalid Hlook Hgone.
  destruct (valid_index_guard index s tk Hint Hvalid Hlook) as (Hok & Hat & _).
  unfold deleteTask. rewrite Hok, Hat. simpl.
  eexists _, _. split; [done|]. split; [by eapply undo_nonempty|]. simpl.
  rewrite restore_first_no_match by done. split_and!; try done.
  rewrite length_delete by by eexists.
  assert (Z.to_nat index < length (tasks s))%nat by lia. lia.
Qed.

Lemma undo_keeps_task_deleted_witness :
  ∃ s1 s2, deleteTask 0 s_two = Some s1 ∧
    undo s1 = Some (s2, "Undo successful.") ∧
    tasks s2 = delete (Z.to_nat 0) (tasks s_two) ∧
    S (length (tasks s2)) = length (tasks s_two) ∧
    TaskHistory.history (history s2) = TaskHistory.history (history s_two).
Proof.
  apply (undo_keeps_task_deleted 0 s_two (Task.set_completed true buy_milk)).
  - unfold int_range. lia.
  - vm_compute. split; [discriminate|reflexivity].
  - reflexivity.
  - vm_compute. apply Forall_cons. split; [discriminate|apply Forall_nil_2].
Defined.

(** X18: [n] calls of [undo] always return, take [n] snapshots off the undo
    stack or all of them when it holds fewer, and never change the number
    of tasks; once [n] reaches the depth of the stack, a further [undo]
    prints "Nothing to undo.". *)
Theorem undo_n_depth (n : nat) (s : t) :
  ∃ s', undo_n n s = Some s' ∧
    undo_side s' = (undo_side s - n)%nat ∧
    length (tasks s') = length (tasks s) ∧
    ((undo_side s ≤ n)%nat → undo s' = Some (s', "Nothing to undo.")).
Proof.
  revert s. induction n as [|n IH]; intros s.
  - exists s. split_and!; try done.
    + unfold undo_side. lia.
    + unfold undo_side. intros Hle. apply undo_empty.
      destruct (TaskHistory.history (history s)); [done|simpl in Hle; lia].
  - cbn [undo_n].
    destruct (TaskHistory.history (history s)) as [|m rest] eqn:H.
    + rewrite undo_empty by done. simpl.
      destruct (IH s) as (s' & Hn & Hside & Hlen & Hnothing).
      exists s'. split_and!; try done.
      * rewrite Hside. unfold undo_side. rewrite H. simpl. lia.
      * intros _. apply Hnothing. unfold undo_side. rewrite H. simpl. lia.
    + erewrite undo_nonempty by done. simpl.
      match goal with |- context [undo_n n ?s1] =>
        destruct (IH s1) as (s' & Hn & Hside & Hlen & Hnothing) end.
      exists s'. split_and!; try done.
      * rewrite Hside. unfold undo_side. rewrite H. simpl. lia.
      * rewrite Hlen. simpl. apply restore_first_length.
      * intros Hle. apply Hnothing. unfold undo_side in *.
        rewrite H in Hle. simpl in *. lia.
Qed.

Lemma undo_n_depth_witness :
  ∃ s', undo_n 5 s_two = Some s' ∧ undo s' = Some (s', "Nothing to undo.").
Proof.
  destruct (undo_n_depth 5 s_two) as (s' & Hn & _ & _ & Hnothing).
  exists s'. split; [exact Hn|]. apply Hnothing. vm_compute.
  repeat constructor.
Defined.

(** X19: an [addTask] of a task whose description is already present,
    followed by [undo], overwrites the first task of that description with
    the completed flag and the due date of the task added, and keeps the
    task added at the end of the collection. *)
Theorem undo_after_duplicate_add (task : Task.t) (s : t)
    (before : list Task.t) (tk : Task.t) (rest : list Task.t) :
  tasks s = before ++ tk :: rest →
  Forall (λ tk', Task.description tk' ≠ Task.description task) before →
  Task.description tk = Task.description task →
  ∃ s', undo (addTask task s) = Some (s', "Undo successful.") ∧
    tasks s' =
      before ++
      {| Task.description := Task.description tk;
         Task.completed := Task.completed task;
         Task.dueDate := Task.dueDate task;
         Task.tags := Task.tags tk |} :: rest ++ [task].
Proof.
  intros Hsplit Hbefore Hsame.
  eexists. split; [by eapply undo_nonempty|]. simpl.
  rewrite Hsplit, <- app_assoc. simpl.
  rewrite restore_first_match by done.
  unfold Task.restore. simpl. by rewrite Hsame.
Qed.

Lemma undo_after_duplicate_add_witness :
  ∃ s', undo (addTask buy_milk s_done) = Some (s', "Undo successful.") ∧
    tasks s' = [] ++ buy_milk :: [] ++ [buy_milk].
Proof.
  apply (undo_after_duplicate_add buy_milk s_done []
           (Task.set_completed true buy_milk) []).
  - reflexivity.
  - apply Forall_nil_2.
  - reflexivity.
Defined.

(** ** viewTasks *)

Lemma int_of_size_t_small (i : Z) : 0 <= i < 2 ^ 31 → int_of_size_t i = i.
Proof.
  intros Hi. unfold int_of_size_t. rewrite Z.mod_small by lia. lia.
Qed.

Lemma display_position (i : nat) (tk : Task.t) :
  Z.of_nat i + 1 < 2 ^ 31 →
  Task.display (int_of_size_t (Z.of_nat i)) tk = Some (line_of i tk).
Proof.
  intros Hi. rewrite int_of_size_t_small by lia.
  unfold Task.display, int_add.
  assert ((- 2 ^ 31 <=? Z.of_nat i + 1) && (Z.of_nat i + 1 <? 2 ^ 31) = true) as ->.
  { apply andb_true_iff. split; [apply Z.leb_le|apply Z.ltb_lt]; lia. }
  done.
Qed.

Lemma view_loop_lines (filter : string) (i : nat) (ts : list Task.t) :
  Z.of_nat (i + length ts) < 2 ^ 31 →
  view_loop filter (Z.of_nat i) ts = Some (lines_from filter i ts).
Proof.
  revert i. induction ts as [|tk ts IH]; intros i Hi; [done|].
  simpl in Hi. cbn [view_loop lines_from].
  replace (Z.of_nat i + 1) with (Z.of_nat (S i)) by lia.
  rewrite IH by (simpl; lia).
  destruct (shown filter tk); [|done].
  rewrite display_position by lia. done.
Qed.

Lemma view_loop_lines_0 (filter : string) (ts : list Task.t) :
  Z.of_nat (length ts) < 2 ^ 31 →
  view_loop filter 0 ts = Some (lines_from filter 0 ts).
Proof. intros Hlen. by apply (view_loop_lines filter 0 ts). Qed.

Lemma shown_unknown (filter : string) (tk : Task.t) :
  filter ≠ "Show all" → filter ≠ "Show completed" → filter ≠ "Show pending" →
  shown filter tk = false.
Proof.
  intros H1 H2 H3. unfold shown.
  apply String.eqb_neq in H1, H2, H3. by rewrite H1, H2, H3.
Qed.

Lemma view_loop_unknown (filter : string) (i : Z) (ts : list Task.t) :
  filter ≠ "Show all" → filter ≠ "Show completed" → filter ≠ "Show pending" →
  view_loop filter i ts = Some [].
Proof.
  intros H1 H2 H3. revert i. induction ts as [|tk ts IH]; intros i; [done|].
  cbn [view_loop]. by rewrite shown_unknown.
Qed.

Lemma lines_from_all (i : nat) (ts : list Task.t) :
  lines_from "Show all" i ts = imap (λ j, line_of (i + j)) ts.
Proof.
  revert i. induction ts as [|tk ts IH]; intros i; [done|].
  cbn [lines_from imap]. change (shown "Show all" tk) with true. cbv iota.
  rewrite IH. f_equal; [f_equal; lia|].
  apply imap_ext. intros j x _. simpl. f_equal. lia.
Qed.



(** X20: with fewer than 2^31 tasks, [viewTasks("Show all")] returns
    normally and prints "Tasks:" followed by one line for every task, in
    the order of the collection, the task at position [j] (from 0) being
    numbered [j + 1]. *)
Theorem viewTasks_show_all (s : t) :
  Z.of_nat (length (tasks s)) < 2 ^ 31 →
  viewTasks "Show all" s = Some ("Tasks:" :: imap line_of (tasks s)).
Proof.
  intros Hlen. unfold viewTasks.
  rewrite view_loop_lines_0 by done. simpl.
  by rewrite lines_from_all.
Qed.

Lemma viewTasks_show_all_witness :
  Z.of_nat (length (tasks s_two)) < 2 ^ 31 ∧
  viewTasks "Show all" s_two =
    Some ["Tasks:"; "1. Buy milk - Completed";
          "2. Call Alice - Pending, Due: 2024-01-01"].
Proof.
  assert (Z.of_nat (length (tasks s_two)) < 2 ^ 31) as Hlen by (vm_compute; reflexivity).
  split; [exact Hlen|].
  rewrite (viewTasks_show_all s_two Hlen). vm_compute. reflexivity.
Defined.

(** X21: a filter that is none of "Show all", "Show completed" and
    "Show pending" makes [viewTasks] print the header "Tasks:" and nothing
    else, whatever the tasks are. *)
Theorem viewTasks_unknown_filter (filter : string) (s : t) :
  filter ≠ "Show all" → filter ≠ "Show completed" → filter ≠ "Show pending" →
  viewTasks filter s = Some ["Tasks:"].
Proof.
  intros H1 H2 H3. unfold viewTasks. by rewrite view_loop_unknown.
Qed.

Lemma viewTasks_unknown_filter_witness :
  viewTasks "show all" s_two = Some ["Tasks:"].
Proof.
  apply (viewTasks_unknown_filter "show all" s_two); discriminate.
Defined.



(** ** One iteration of the menu loop *)

Lemma int_sub_Some (a b p : Z) :
  int_sub a b = Some p ↔ p = a - b ∧ int_range p.
Proof.
  unfold int_sub, int_range.
  destruct ((- 2 ^ 31 <=? a - b) && (a - b <? 2 ^ 31)) eqn:Hb.
  - apply andb_true_iff in Hb as [H1%Z.leb_le H2%Z.ltb_lt].
    split; [intros ?; simplify_eq; lia|intros [-> _]; done].
  - split; [done|]. intros [-> [H1 H2]].
    apply Z.leb_le in H1. apply Z.ltb_lt in H2. by rewrite H1, H2 in Hb.
Qed.

Lemma iteration_invalid (choice : Z) (r : Main.reads) (s : t) :
  ¬ (1 <= choice <= 10) →
  Main.iteration choice r s =
    Some (Main.Continue s (Main.menu ++ ["Invalid choice. Please try again."])).
Proof.
  intros Hc. destruct choice as [|p|p]; try reflexivity.
  do 4 (destruct p as [p|p|]; try reflexivity; try lia).
Qed.

Lemma choice_cases (choice : Z) :
  1 <= choice <= 10 →
  choice = 1 ∨ choice = 2 ∨ choice = 3 ∨ choice = 4 ∨ choice = 5 ∨
  choice = 6 ∨ choice = 7 ∨ choice = 8 ∨ choice = 9 ∨ choice = 10.
Proof. lia. Qed.

(** X23: an iteration of the menu loop keeps the manager within the states
    reachable by the manager's own calls, whatever choice and values are
    read: the invariants of reachable states hold throughout a run of
    [main]. *)
Theorem iteration_keeps_reachable (choice : Z) (r : Main.reads) (s s' : t)
    (out : list string) :
  reachable s →
  Main.iteration choice r s = Some (Main.Continue s' out) →
  reachable s'.
Proof.
  intros Hs Hit.
  destruct (decide (1 <= choice <= 10)) as [Hc|Hc].
  2: { rewrite iteration_invalid in Hit by done. by simplify_eq. }
  destruct (choice_cases choice Hc)
    as [->|[->|[->|[->|[->|[->|[->|[->|[->| ->]]]]]]]]]; simpl in Hit.
  - simplify_eq. eapply (reachable_step s (AddTask _)); [done|exact I|reflexivity].
  - destruct (int_sub _ 1) as [p|] eqn:Hp; [|done]. simpl in Hit.
    apply int_sub_Some in Hp as [_ Hp].
    destruct (markTaskCompleted p s) as [s1|] eqn:H1; [|done]. simplify_eq/=.
    by apply (reachable_step s (MarkTaskCompleted p)).
  - destruct (int_sub _ 1) as [p|] eqn:Hp; [|done]. simpl in Hit.
    apply int_sub_Some in Hp as [_ Hp].
    destruct (markTaskPending p s) as [s1|] eqn:H1; [|done]. simplify_eq/=.
    by apply (reachable_step s (MarkTaskPending p)).
  - destruct (int_sub _ 1) as [p|] eqn:Hp; [|done]. simpl in Hit.
    apply int_sub_Some in Hp as [_ Hp].
    destruct (deleteTask p s) as [s1|] eqn:H1; [|done]. simplify_eq/=.
    by apply (reachable_step s (DeleteTask p)).
  - destruct (viewTasks _ s); by simplify_eq/=.
  - destruct (viewTasks _ s); by simplify_eq/=.
  - destruct (viewTasks _ s); by simplify_eq/=.
  - destruct (undo s) as [[s1 line]|] eqn:H1; [|done]. simplify_eq/=.
    apply (reachable_step s Undo); [done..|]. simpl. by rewrite H1.
  - destruct (redo s) as [[s1 line]|] eqn:H1; [|done]. simplify_eq/=.
    apply (reachable_step s Redo); [done..|]. simpl. by rewrite H1.
  - done.
Qed.

Lemma iteration_keeps_reachable_witness :
  reachable (after [AddTask buy_milk; MarkTaskCompleted 0; Undo]).
Proof.
  apply (iteration_keeps_reachable 8 (Main.Reads "" "" "" 0) s_done
           (after [AddTask buy_milk; MarkTaskCompleted 0; Undo])
           (Main.menu ++ ["Undo successful."])).
  - apply reachable_after; [solve_wf|]. vm_compute. by eexists.
  - reflexivity.
Defined.

(** X24: in a run of [main] only the choices 1, 2, 3, 4 and 8 can change
    the manager: on a reachable state every other choice, the views, the
    exit, an invalid number and also 9 (redo), goes on with the manager it
    found, and choice 9 prints "Nothing to redo.". *)
Theorem iteration_read_only_choices (choice : Z) (r : Main.reads) (s : t) :
  reachable s →
  choice ≠ 1 → choice ≠ 2 → choice ≠ 3 → choice ≠ 4 → choice ≠ 8 →
  (∀ s' out, Main.iteration choice r s = Some (Main.Continue s' out) → s' = s) ∧
  (choice = 9 →
   Main.iteration choice r s =
     Some (Main.Continue s (Main.menu ++ ["Nothing to redo."]))).
Proof.
  intros Hs H1 H2 H3 H4 H8.
  pose proof (reachable_inner_redo_empty s Hs) as Hinner.
  split.
  - intros s' out Hit.
    destruct (decide (1 <= choice <= 10)) as [Hc|Hc].
    2: { rewrite iteration_invalid in Hit by done. by simplify_eq. }
    destruct (choice_cases choice Hc)
      as [->|[->|[->|[->|[->|[->|[->|[->|[->| ->]]]]]]]]]; simpl in Hit;
      try done.
    + destruct (viewTasks _ s); by simplify_eq/=.
    + destruct (viewTasks _ s); by simplify_eq/=.
    + destruct (viewTasks _ s); by simplify_eq/=.
    + rewrite redo_empty in Hit by done. by simplify_eq/=.
  - intros ->. simpl. by rewrite redo_empty.
Qed.

Lemma iteration_read_only_choices_witness :
  Main.iteration 9 (Main.Reads "" "" "" 0)
    (after [AddTask buy_milk; MarkTaskCompleted 0; Undo]) =
  Some (Main.Continue (after [AddTask buy_milk; MarkTaskCompleted 0; Undo])
          (Main.menu ++ ["Nothing to redo."])).
Proof.
  apply (iteration_read_only_choices 9 (Main.Reads "" "" "" 0)
           (after [AddTask buy_milk; MarkTaskCompleted 0; Undo])); try done.
  apply reachable_after; [solve_wf|]. vm_compute. by eexists.
Defined.

(** X25: for the choices 2, 3 and 4 a number read that is not between 1
    and the number of tasks leaves the manager untouched, and the iteration
    prints the success line of the choice all the same. *)
Theorem iteration_index_out_of_range (r : Main.reads) (s : t) :
  int_range (Main.index r) →
  - 2 ^ 31 < Main.index r →
  ¬ (1 <= Main.index r <= Z.of_nat (length (tasks s))) →
  Main.iteration 2 r s =
    Some (Main.Continue s
            (Main.menu ++ ["Enter task index: Task marked as completed!"])) ∧
  Main.iteration 3 r s =
    Some (Main.Continue s
            (Main.menu ++ ["Enter task index: Task marked as pending!"])) ∧
  Main.iteration 4 r s =
    Some (Main.Continue s
            (Main.menu ++ ["Enter task index: Task deleted successfully!"])).
Proof.
  intros Hint Hmin Hout.
  assert (int_range (Main.index r - 1)) as Hp by (unfold int_range in *; lia).
  assert (int_sub (Main.index r) 1 = Some (Main.index r - 1)) as Hsub
    by by apply int_sub_Some.
  assert (index_ok (Main.index r - 1) s = false) as Hok.
  { apply index_ok_false; [done|]. lia. }
  unfold Main.iteration. rewrite Hsub. simpl.
  unfold markTaskCompleted, markTaskPending, deleteTask. by rewrite Hok.
Qed.

Lemma iteration_index_out_of_range_witness :
  Main.iteration 4 (Main.Reads "" "" "" 0) s_two =
    Some (Main.Continue s_two
            (Main.menu ++ ["Enter task index: Task deleted successfully!"])).
Proof.
  apply (iteration_index_out_of_range (Main.Reads "" "" "" 0) s_two).
  - unfold int_range. simpl. lia.
  - simpl. lia.
  - vm_compute. intros [H _]. by apply H.
Defined.

(** X26: an iteration returns normally whenever the number read as task
    index is an [int] above the least one and the manager holds fewer than
    2^31 tasks; with the least [int] as task index, [index - 1] overflows
    and the choices 2, 3 and 4 are undefined. *)
Theorem iteration_returns (choice : Z) (r : Main.reads) (s : t) :
  (int_range (Main.index r) → - 2 ^ 31 < Main.index r →
   Z.of_nat (length (tasks s)) < 2 ^ 31 →
   is_Some (Main.iteration choice r s)) ∧
  (Main.index r = - 2 ^ 31 →
   Main.iteration 2 r s = None ∧ Main.iteration 3 r s = None ∧
   Main.iteration 4 r s = None).
Proof.
  split.
  - intros Hint Hmin Hlen.
    assert (int_range (Main.index r - 1)) as Hp by (unfold int_range in *; lia).
    assert (int_sub (Main.index r) 1 = Some (Main.index r - 1)) as Hsub
      by by apply int_sub_Some.
    destruct (decide (1 <= choice <= 10)) as [Hc|Hc].
    2: { rewrite iteration_invalid by done. by eexists. }
    destruct (choice_cases choice Hc)
      as [->|[->|[->|[->|[->|[->|[->|[->|[->| ->]]]]]]]]]; simpl;
      try (by eexists); try rewrite Hsub; simpl.
    + destruct (exec_returns (MarkTaskCompleted (Main.index r - 1)) s Hp) as [s1 H1].
      simpl in H1. rewrite H1. by eexists.
    + destruct (exec_returns (MarkTaskPending (Main.index r - 1)) s Hp) as [s1 H1].
      simpl in H1. rewrite H1. by eexists.
    + destruct (exec_returns (DeleteTask (Main.index r - 1)) s Hp) as [s1 H1].
      simpl in H1. rewrite H1. by eexists.
    + unfold viewTasks. rewrite view_loop_lines_0 by done. by eexists.
    + unfold viewTasks. rewrite view_loop_lines_0 by done. by eexists.
    + unfold viewTasks. rewrite view_loop_lines_0 by done. by eexists.
    + destruct (undo_returns s) as [[s1 line] ->]. by eexists.
    + destruct (redo_returns s) as [[s1 line] ->]. by eexists.
  - intros Hmin. unfold Main.iteration. by rewrite Hmin.
Qed.

Lemma iteration_returns_witness :
  is_Some (Main.iteration 6 (Main.Reads "" "" "" 0) s_two).
Proof.
  apply (proj1 (iteration_returns 6 (Main.Reads "" "" "" 0) s_two)).
  - unfold int_range. simpl. lia.
  - simpl. lia.
  - vm_compute. reflexivity.
Defined.

(** X27: choice 1 appends to the collection a task that has the
    description read, is pending, has no tags, and has the due date read
    when the answer to the due-date question is "y" or "Y" and no due date
    otherwise; the tasks already there are untouched and the snapshot of the
    new task is on top of the undo stack. *)
Theorem iteration_adds_task (r : Main.reads) (s : t) :
  ∃ s' out, Main.iteration 1 r s = Some (Main.Continue s' out) ∧
    tasks s' =
      tasks s ++
      [{| Task.description := Main.description r;
          Task.completed := false;
          Task.dueDate :=
            if decide (Main.addDueDate r = "y" ∨ Main.addDueDate r = "Y")
            then Main.due_date r else "";
          Task.tags := [] |}] ∧
    TaskHistory.history (history s') =
      TaskMemento.Build (Main.description r) false
        (if decide (Main.addDueDate r = "y" ∨ Main.addDueDate r = "Y")
         then Main.due_date r else "") :: TaskHistory.history (history s) ∧
    redoStack s' = redoStack s.
Proof.
  assert (Main.wants_due_date r =
          bool_decide (Main.addDueDate r = "y" ∨ Main.addDueDate r = "Y")) as Hw.
  { unfold Main.wants_due_date.
    destruct (String.eqb_spec (Main.addDueDate r) "y") as [->|Hy];
      [by rewrite bool_decide_eq_true_2 by by left|].
    destruct (String.eqb_spec (Main.addDueDate r) "Y") as [->|HY];
      [by rewrite bool_decide_eq_true_2 by by right|].
    rewrite bool_decide_eq_false_2; [done|]. by intros [?|?]. }
  eexists _, _. split; [reflexivity|].
  destruct (decide (Main.addDueDate r = "y" ∨ Main.addDueDate r = "Y")) as [Hyes|Hno].
  - rewrite bool_decide_eq_true_2 in Hw by done.
    unfold addTask, Task.build, Task.save. simpl. by rewrite Hw.
  - rewrite bool_decide_eq_false_2 in Hw by done.
    unfold addTask, Task.build, Task.save. simpl. by rewrite Hw.
Qed.
